(** * playback-buffer: the RTMP-to-HLS orchestrator of [server.js]

    A shallow embedding of [src/server.js]: the table of FFmpeg child
    processes, the handlers registered on the media server, on each child
    process and on [SIGINT], the two [setTimeout] callbacks, and the
    [setHeaders] hook of the static file server.

    The Node runtime is the environment: it delivers events (media-server
    notifications, timer expiry, child-process [error] and [close], the
    interrupt signal) one at a time, and each handler runs to completion.
    A handler is a function on the server state.

    Left out: the [data] handlers on the output channels of a child
    process, which only write to the console, and the banner printed by
    [app.listen]. *)

From Stdlib Require Import ZArith Ascii String.
From stdpp Require Import base list strings gmap.

Local Open Scope string_scope.
Local Open Scope list_scope.

(** ** Strings: the built-ins the source calls *)

Module Str.

(** [s.endsWith(suffix)]: the characters of [suffix] are the last ones
    of [s]. *)
Definition endsWith (s suffix : string) : bool :=
  bool_decide (list_ascii_of_string suffix `suffix_of` list_ascii_of_string s).

(** Pieces of [s] between occurrences of [sep], left to right
    ([s.split(sep)] for a one-character separator). *)
Fixpoint split (sep : ascii) (s : string) : list string :=
  match s with
  | EmptyString => [EmptyString]
  | String c rest =>
      if Ascii.eqb c sep then EmptyString :: split sep rest
      else match split sep rest with
           | [] => [String c EmptyString]
           | piece :: pieces => String c piece :: pieces
           end
  end.

(** [pieces.join(sep)]. *)
Definition join (sep : string) (pieces : list string) : string :=
  String.concat sep pieces.

Definition startsWith (s pre : string) : bool := String.prefix pre s.

End Str.

(** ** Paths: Node's [path.join] on POSIX *)

Module path.

(** One pass of Node's [normalizeString] over the segments of a path:
    empty segments and [.] are dropped, [..] removes the segment before
    it when there is one that is not itself [..], and is otherwise kept
    only in a relative path. [acc] holds the segments kept so far, last
    one first. *)
Fixpoint normalizeString (allowAboveRoot : bool) (acc segs : list string)
  : list string :=
  match segs with
  | [] => rev acc
  | seg :: segs' =>
      if (String.eqb seg "" || String.eqb seg ".")%bool then
        normalizeString allowAboveRoot acc segs'
      else if String.eqb seg ".." then
        match acc with
        | last :: acc' =>
            if String.eqb last ".." then
              normalizeString allowAboveRoot
                (if allowAboveRoot then ".." :: acc else acc) segs'
            else normalizeString allowAboveRoot acc' segs'
        | [] =>
            normalizeString allowAboveRoot
              (if allowAboveRoot then [".."] else []) segs'
        end
      else normalizeString allowAboveRoot (seg :: acc) segs'
  end.

Definition normalize (p : string) : string :=
  if String.eqb p "" then "."
  else
    let isAbsolute := Str.startsWith p "/" in
    let trailingSeparator := Str.endsWith p "/" in
    let body :=
      Str.join "/" (normalizeString (negb isAbsolute) [] (Str.split "/" p)) in
    if String.eqb body "" then
      if isAbsolute then "/" else if trailingSeparator then "./" else "."
    else
      let body := if trailingSeparator then body +:+ "/" else body in
      if isAbsolute then "/" +:+ body else body.

(** [path.join(...args)]: the non-empty arguments joined by [/], then
    normalized. *)
Definition join (args : list string) : string :=
  match filter (fun a => a <> "") args with
  | [] => "."
  | parts => normalize (Str.join "/" parts)
  end.

(** [p] is [root] or lies below it (both normalized, absolute). *)
Definition inside (root p : string) : bool :=
  (String.eqb p root || Str.startsWith p (root +:+ "/"))%bool.

End path.

(** ** [Map]: JavaScript's insertion-ordered map, keyed by strings *)

Module JsMap.
Section Ops.
Context {V : Type}.

Definition t := list (string * V).

Definition empty : t := [].

Fixpoint get (k : string) (m : t) : option V :=
    match m with
    | [] => None
    | (k', v) :: m' => if String.eqb k' k then Some v else get k m'
    end.

  (** [m.set(k, v)]: an existing key keeps its place, a new one goes
      last. *)
Fixpoint set (k : string) (v : V) (m : t) : t :=
    match m with
    | [] => [(k, v)]
    | (k', v') :: m' =>
        if String.eqb k' k then (k, v) :: m' else (k', v') :: set k v m'
    end.

Fixpoint delete (k : string) (m : t) : t :=
    match m with
    | [] => []
    | (k', v') :: m' =>
        if String.eqb k' k then delete k m' else (k', v') :: delete k m'
    end.

  (** [m.entries()], in insertion order. *)
Definition entries (m : t) : list (string * V) := m.
End Ops.
Global Arguments t : clear implicits.
End JsMap.

(** ** The server state *)

(** A child process as the server sees it. [handlerKey] is the
    [streamKey] captured by the closures that [startFFmpegTranscoding]
    registers on the process; [signals] are the signals delivered through
    [kill], oldest first; [closed] holds the exit code passed to the
    [close] handler once that event has been delivered ([None] inside
    stands for [null], a process ended by a signal). *)
Record ChildProcess := {
  spawnfile : string;
  spawnargs : list string;
  handlerKey : string;
  signals : list string;
  closed : option (option Z)
}.

Definition running (c : ChildProcess) : bool :=
  match closed c with None => true | Some _ => false end.

(** The functions handed to [setTimeout]. *)
Inductive callback :=
| StartTranscoding (streamKey : string)
| CheckFiles (outputDir streamKey : string).

Record timer := { callback_of : callback; delay : nat }.

(** What the server writes to the console, one constructor per message
    (decoration left out), with the values interpolated in it. *)
Inductive line :=
| StartingManualTranscoding
| StreamKeyIs (streamKey : string)
| CreatedDirectory (outputDir : string)
| FFmpegCommand (ffmpegArgs : list string)
| FFmpegError (message : string)
| ProcessExitedWithCode (code : option Z)
| FinishedSuccessfully
| ExitedWithErrorCode (code : option Z)
| HlsFilesCreated (m3u8Files : list string) (tsFiles : nat) (streamKey : string)
| WaitingForSegments
| StoppingFFmpegFor (streamKey : string)
| Hook (name : string)
| StreamStarted
| StartingTranscodingFor (streamKey : string)
| StreamEnded
| ShuttingDown
| Stopping (streamKey : string)
| CleanupComplete.

Record state := {
  ffmpegProcesses : JsMap.t nat;
  children : list ChildProcess;
  timers : list timer;
  dirs : gset string;
  console : list line;
  exited : option Z
}.

(** ** Handlers as state transformers *)

Definition M (A : Type) : Type := state -> A * state.

#[global] Instance M_ret : MRet M := fun A (a : A) st => (a, st).

#[global] Instance M_bind : MBind M := fun A B (k : A -> M B) (m : M A) st =>
  let (a, st') := m st in k a st'.

Definition exec {A} (m : M A) (st : state) : state := snd (m st).

Definition console_log (l : line) : M unit := fun st =>
  (tt, {| ffmpegProcesses := ffmpegProcesses st; children := children st;
          timers := timers st; dirs := dirs st;
          console := console st ++ [l]; exited := exited st |}).

Definition setTimeout (cb : callback) (ms : nat) : M unit := fun st =>
  (tt, {| ffmpegProcesses := ffmpegProcesses st; children := children st;
          timers := timers st ++ [{| callback_of := cb; delay := ms |}];
          dirs := dirs st; console := console st; exited := exited st |}).

Definition processes_get (streamKey : string) : M (option nat) := fun st =>
  (JsMap.get streamKey (ffmpegProcesses st), st).

Definition processes_set (streamKey : string) (ffmpeg : nat) : M unit := fun st =>
  (tt, {| ffmpegProcesses := JsMap.set streamKey ffmpeg (ffmpegProcesses st);
          children := children st; timers := timers st; dirs := dirs st;
          console := console st; exited := exited st |}).

Definition processes_delete (streamKey : string) : M unit := fun st =>
  (tt, {| ffmpegProcesses := JsMap.delete streamKey (ffmpegProcesses st);
          children := children st; timers := timers st; dirs := dirs st;
          console := console st; exited := exited st |}).

Definition processes_entries : M (list (string * nat)) := fun st =>
  (JsMap.entries (ffmpegProcesses st), st).

Definition process_exit (code : Z) : M unit := fun st =>
  (tt, {| ffmpegProcesses := ffmpegProcesses st; children := children st;
          timers := timers st; dirs := dirs st; console := console st;
          exited := Some code |}).

(** [spawn(command, args)] returns the handle of a new child process at
    once, whether or not the executable can be launched; a launch failure
    is reported later through the [error] event, so until [close] is
    delivered the state does not tell a failed launch from a running
    process. The handle is the position of the process in [children].
    [streamKey] is recorded for the handlers registered right after the
    call. The call is modelled where it returns: arguments it refuses by
    throwing (a NUL byte) are outside the model. *)
Definition spawn (command : string) (args : list string) (streamKey : string)
  : M nat := fun st =>
  (length (children st),
   {| ffmpegProcesses := ffmpegProcesses st;
      children := children st ++
        [{| spawnfile := command; spawnargs := args; handlerKey := streamKey;
            signals := []; closed := None |}];
      timers := timers st; dirs := dirs st; console := console st;
      exited := exited st |}).

Definition send_signal (sig : string) (c : ChildProcess) : ChildProcess :=
  {| spawnfile := spawnfile c; spawnargs := spawnargs c;
     handlerKey := handlerKey c; signals := signals c ++ [sig];
     closed := closed c |}.

Definition mark_closed (code : option Z) (c : ChildProcess) : ChildProcess :=
  {| spawnfile := spawnfile c; spawnargs := spawnargs c;
     handlerKey := handlerKey c; signals := signals c;
     closed := Some code |}.

Definition set_children (cs : list ChildProcess) (st : state) : state :=
  {| ffmpegProcesses := ffmpegProcesses st; children := cs;
     timers := timers st; dirs := dirs st; console := console st;
     exited := exited st |}.

(** [ffmpeg.kill(signal)]: the signal is sent to a process that has not
    ended; on one that has, the call returns [false] and does nothing.
    The state knows of the end of a process by its [close] only, so
    [signals] records the calls made while [close] is pending: the
    signals the system delivers are among them (none for a process that
    was never launched, or that has exited with its [close] still to
    come). *)
Definition kill (ffmpeg : nat) (sig : string) : M bool := fun st =>
  match children st !! ffmpeg with
  | Some c =>
      if running c
      then (true, set_children (<[ffmpeg := send_signal sig c]> (children st)) st)
      else (false, st)
  | None => (false, st)
  end.

(** Directories above an absolute path, and the path itself. *)
Definition ancestors (p : string) : list string :=
  let segs := filter (fun s => s <> "") (Str.split "/" p) in
  (fun n => "/" +:+ Str.join "/" (take n segs)) <$> seq 1 (length segs).

(** [fs.existsSync(p)], on a file system that holds directories only:
    [dirs] is the set of the directories that exist, by their normalized
    paths; other kinds of entries are outside the model. *)
Definition fs_existsSync (p : string) : M bool := fun st =>
  (bool_decide (p ∈ dirs st), st).

(** [fs.mkdirSync(p, { recursive: true })], where it succeeds: the
    directory and the missing ones above it exist afterwards. A path the
    file system refuses (a NUL byte, a name that is too long, no
    permission) makes the call throw, which ends the handler; that is
    outside the model. *)
Definition fs_mkdirSync (p : string) : M unit := fun st =>
  (tt, {| ffmpegProcesses := ffmpegProcesses st; children := children st;
          timers := timers st; dirs := dirs st ∪ list_to_set (ancestors p);
          console := console st; exited := exited st |}).

Section Server.

(** The directory [server.js] is installed in. *)
Variable __dirname : string.

Definition mediaDir : string := path.join [__dirname; "media"].

Definition inputUrl (streamKey : string) : string :=
  "rtmp://localhost:1935/live/" +:+ streamKey.

Definition outputDir (streamKey : string) : string :=
  path.join [mediaDir; "live"; streamKey].

Definition ffmpegArgs (streamKey : string) : list string :=
  [ "-i"; inputUrl streamKey;
    "-c:v"; "libx264";
    "-c:a"; "aac";
    "-b:v"; "2500k";
    "-b:a"; "128k";
    "-vf"; "scale=1280:720";
    "-preset"; "veryfast";
    "-g"; "50";
    "-sc_threshold"; "0";
    "-f"; "hls";
    "-hls_time"; "2";
    "-hls_list_size"; "5";
    "-hls_flags"; "delete_segments";
    "-hls_segment_filename";
    path.join [outputDir streamKey; "segment_%03d.ts"];
    path.join [outputDir streamKey; "index.m3u8"] ].

Definition startFFmpegTranscoding (streamKey : string) : M unit :=
  console_log StartingManualTranscoding;;
  console_log (StreamKeyIs streamKey);;
  present ← fs_existsSync (outputDir streamKey);
  (if present : bool then mret tt
   else fs_mkdirSync (outputDir streamKey);;
        console_log (CreatedDirectory (outputDir streamKey)));;
  console_log (FFmpegCommand (ffmpegArgs streamKey));;
  ffmpeg ← spawn "ffmpeg" (ffmpegArgs streamKey) streamKey;
  processes_set streamKey ffmpeg;;
  setTimeout (CheckFiles (outputDir streamKey) streamKey) 5000.

(** The [close] handler registered on a process started for
    [streamKey]. *)
Definition on_close (streamKey : string) (code : option Z) : M unit :=
  console_log (ProcessExitedWithCode code);;
  processes_delete streamKey;;
  if bool_decide (code = Some 0%Z) then console_log FinishedSuccessfully
  else console_log (ExitedWithErrorCode code).

(** The [error] handler registered on a process. *)
Definition on_error (message : string) : M unit :=
  console_log (FFmpegError message).

(** The function given to [setTimeout] at the end of
    [startFFmpegTranscoding]; [files] is what [fs.readdirSync] returns
    when it runs. *)
Definition checkFiles (outputDir streamKey : string) (files : list string)
  : M unit :=
  present ← fs_existsSync outputDir;
  if present : bool then
    let m3u8Files := filter (fun f => Str.endsWith f ".m3u8" = true) files in
    let tsFiles := filter (fun f => Str.endsWith f ".ts" = true) files in
    if bool_decide (0 < length files) then
      console_log (HlsFilesCreated m3u8Files (length tsFiles) streamKey)
    else console_log WaitingForSegments
  else mret tt.

Definition stopFFmpegTranscoding (streamKey : string) : M unit :=
  ffmpeg ← processes_get streamKey;
  match ffmpeg with
  | Some ffmpeg =>
      console_log (StoppingFFmpegFor streamKey);;
      kill ffmpeg "SIGTERM";;
      processes_delete streamKey
  | None => mret tt
  end.

(** The media server passes the published stream's path to its
    handlers; the handlers below declare no parameter. *)
Definition on_postPublish (StreamPath : string) : M unit :=
  console_log StreamStarted;;
  let streamKey := "demo" in
  console_log (StartingTranscodingFor streamKey);;
  setTimeout (StartTranscoding streamKey) 1000.

Definition on_donePublish (StreamPath : string) : M unit :=
  console_log StreamEnded;;
  let streamKey := "demo" in
  stopFFmpegTranscoding streamKey.

(** The body of the [for ... of ffmpegProcesses.entries()] loop. *)
Fixpoint stop_each (entries : list (string * nat)) : M unit :=
  match entries with
  | [] => mret tt
  | (streamKey, ffmpeg) :: rest =>
      console_log (Stopping streamKey);;
      kill ffmpeg "SIGTERM";;
      stop_each rest
  end.

Definition on_SIGINT : M unit :=
  console_log ShuttingDown;;
  entries ← processes_entries;
  stop_each entries;;
  console_log CleanupComplete;;
  process_exit 0.

Definition run_callback (cb : callback) (files : list string) : M unit :=
  match cb with
  | StartTranscoding streamKey => startFFmpegTranscoding streamKey
  | CheckFiles outputDir streamKey => checkFiles outputDir streamKey files
  end.

(** *** The event loop *)

(** What the runtime can deliver to the server. [Timeout n files] is
    the expiry of the [n]-th pending timer ([files] is the directory
    listing its callback would read); [ChildError] and [ChildClose] are
    the events of the child process with that handle. *)
Inductive event :=
| PreConnect
| PostConnect
| PrePublish
| PostPublish (StreamPath : string)
| DonePublish (StreamPath : string)
| TransStart
| TransEnd
| Timeout (n : nat) (files : list string)
| ChildError (ffmpeg : nat) (message : string)
| ChildClose (ffmpeg : nat) (code : option Z)
| SIGINT.

Definition take_timer (n : nat) : M (option timer) := fun st =>
  (timers st !! n,
   {| ffmpegProcesses := ffmpegProcesses st; children := children st;
      timers := delete n (timers st); dirs := dirs st;
      console := console st; exited := exited st |}).

Definition child (ffmpeg : nat) : M (option ChildProcess) := fun st =>
  (children st !! ffmpeg, st).

Definition close_child (ffmpeg : nat) (code : option Z) : M unit := fun st =>
  (tt, set_children (alter (mark_closed code) ffmpeg (children st)) st).

(** One handler run. [close] is delivered once per process. *)
Definition handle (ev : event) : M unit :=
  match ev with
  | PreConnect => console_log (Hook "preConnect")
  | PostConnect => console_log (Hook "postConnect")
  | PrePublish => console_log (Hook "prePublish")
  | PostPublish StreamPath => on_postPublish StreamPath
  | DonePublish StreamPath => on_donePublish StreamPath
  | TransStart => console_log (Hook "transStart")
  | TransEnd => console_log (Hook "transEnd")
  | Timeout n files =>
      t ← take_timer n;
      match t with
      | Some t => run_callback (callback_of t) files
      | None => mret tt
      end
  | ChildError ffmpeg message =>
      c ← child ffmpeg;
      match c with
      | Some _ => on_error message
      | None => mret tt
      end
  | ChildClose ffmpeg code =>
      c ← child ffmpeg;
      match c with
      | Some c =>
          if running c then
            close_child ffmpeg code;; on_close (handlerKey c) code
          else mret tt
      | None => mret tt
      end
  | SIGINT => on_SIGINT
  end.

(** After [process.exit] nothing is handled any more. *)
Definition step (ev : event) (st : state) : state :=
  match exited st with
  | Some _ => st
  | None => exec (handle ev) st
  end.

Definition run (evs : list event) (st : state) : state :=
  foldl (fun st ev => step ev st) st evs.

(** The state once the top level of the script has run, on a file
    system holding the directories [fs]: [mediaDir] is created when
    missing, the table is empty. *)
Definition initial (fs : gset string) : state :=
  {| ffmpegProcesses := JsMap.empty; children := []; timers := [];
     dirs := if bool_decide (mediaDir ∈ fs) then fs
             else fs ∪ list_to_set (ancestors mediaDir);
     console := []; exited := None |}.

End Server.

(** ** The static file server *)

(** The [setHeaders] hook given to [express.static] for [/live]; a
    response is the map of its headers and [res.set] writes one. Header
    names are kept as the code spells them; a response compares them
    without regard to letter case ([toLowerCase] below), so a statement
    about another header speaks of a name that differs in that sense. *)
Definition setHeaders (res : gmap string string) (filePath : string)
  : gmap string string :=
  let res := <["Access-Control-Allow-Origin" := "*"]> res in
  let res := <["Cache-Control" := "no-cache, no-store, must-revalidate"]> res in
  if Str.endsWith filePath ".m3u8" then
    <["Content-Type" := "application/vnd.apple.mpegurl"]> res
  else if Str.endsWith filePath ".ts" then
    <["Content-Type" := "video/mp2t"]> res
  else res.

(** ** Derived notions used by the statements *)

(** The process with handle [ffmpeg] was started for [streamKey] and its
    [close] has not been delivered. *)
Definition live_for (streamKey : string) (st : state) (ffmpeg : nat) : bool :=
  match children st !! ffmpeg with
  | Some c => String.eqb (handlerKey c) streamKey && running c
  | None => false
  end.

Definition live_jobs (streamKey : string) (st : state) : list nat :=
  List.filter (live_for streamKey st) (seq 0 (length (children st))).

Definition is_start (t : timer) : bool :=
  match callback_of t with StartTranscoding _ => true | CheckFiles _ _ => false end.

Definition is_publish (ev : event) : bool :=
  match ev with PostPublish _ => true | _ => false end.

(** The process record that [spawn] creates inside
    [startFFmpegTranscoding]. *)
Definition new_job (__dirname streamKey : string) : ChildProcess :=
  {| spawnfile := "ffmpeg"; spawnargs := ffmpegArgs __dirname streamKey;
     handlerKey := streamKey; signals := []; closed := None |}.

(** [c'] is [c] after some [SIGTERM]s: nothing else differs. *)
Definition signalled (c c' : ChildProcess) : Prop :=
  spawnfile c' = spawnfile c /\ spawnargs c' = spawnargs c /\
  handlerKey c' = handlerKey c /\ closed c' = closed c /\
  exists n, signals c' = signals c ++ replicate n "SIGTERM".

(** [c'] is [c] later in a run: the same process, with [SIGTERM]s added
    and possibly closed in between. *)
Definition aged (c c' : ChildProcess) : Prop :=
  spawnfile c' = spawnfile c /\ spawnargs c' = spawnargs c /\
  handlerKey c' = handlerKey c /\
  exists n, signals c' = signals c ++ replicate n "SIGTERM".

(** The timers the source creates. *)
Definition check_timer (__dirname streamKey : string) : timer :=
  {| callback_of := CheckFiles (outputDir __dirname streamKey) streamKey;
     delay := 5000 |}.

Definition start_timer (streamKey : string) : timer :=
  {| callback_of := StartTranscoding streamKey; delay := 1000 |}.

(** Every signal the process has been sent is [SIGTERM]. *)
Definition sigterm_only (c : ChildProcess) : Prop :=
  Forall (fun sig => sig = "SIGTERM") (signals c).

(** The process is an FFmpeg job for the stream key [demo]. *)
Definition demo_job (__dirname : string) (c : ChildProcess) : Prop :=
  spawnfile c = "ffmpeg" /\ spawnargs c = ffmpegArgs __dirname "demo" /\
  handlerKey c = "demo".

Definition demo_timer (__dirname : string) (t : timer) : Prop :=
  t = start_timer "demo" \/ t = check_timer __dirname "demo".

(** No start of a transcoder is pending. *)
Definition no_pending_start (st : state) : Prop :=
  Forall (fun t => is_start t = false) (timers st).

(** A concrete installation for the examples. *)
Definition app_dir : string := "/srv/app".

(** The state after one publish whose delayed start has run. *)
Definition one_job : state :=
  run app_dir [PostPublish "/live/demo"; Timeout 0 []] (initial app_dir ∅).

(** A publish announcing the stream [cam1], with its delayed start run. *)
Definition cam1_published : state :=
  run app_dir [PostPublish "/live/cam1"; Timeout 0 []] (initial app_dir ∅).

(** [one_job] after the stream has ended. *)
Definition stopped_job : state :=
  run app_dir [DonePublish "/live/demo"] one_job.

(** [stopped_job] after a new publish whose delayed start has run. *)
Definition restarted_job : state :=
  run app_dir [PostPublish "/live/demo"; Timeout 1 []] stopped_job.


(** [name.toLowerCase()] on ASCII letters, the comparison a response
    applies to header names. *)
Definition lower (c : ascii) : ascii :=
  let n := nat_of_ascii c in
  if (65 <=? n)%nat && (n <=? 90)%nat then ascii_of_nat (n + 32) else c.

Fixpoint toLowerCase (s : string) : string :=
  match s with
  | EmptyString => EmptyString
  | String c rest => String (lower c) (toLowerCase rest)
  end.

(** ** Well-formed paths and stream keys *)

Fixpoint has_slash (s : string) : bool :=
  match s with
  | EmptyString => false
  | String c rest => (Ascii.eqb c "/" || has_slash rest)%bool
  end.

(** A path segment that normalization keeps as it is: not empty, not
    [.] or [..], without a separator. *)
Definition clean (seg : string) : bool :=
  (negb (String.eqb seg "") && negb (String.eqb seg ".") &&
   negb (String.eqb seg "..") && negb (has_slash seg))%bool.

(** The absolute path with the segments [segs]. *)
Definition abs_path (segs : list string) : string :=
  "/" +:+ Str.join "/" segs.

(** The directory handed to [express.static] for [/live]. *)
Definition staticRoot (__dirname : string) : string :=
  path.join [mediaDir __dirname; "live"].

(** [one_job] after a second publish whose delayed start has run. *)
Definition two_jobs : state :=
  run app_dir [PostPublish "/live/demo"; Timeout 1 []] one_job.

(** ** Counting over a run *)

(** The starts of a transcoder that are pending. *)
Definition pending_starts (st : state) : nat :=
  length (List.filter is_start (timers st)).

(** The publish events among [evs]. *)
Definition publishes (evs : list event) : nat :=
  length (List.filter is_publish evs).

(** ** What holds of the table in every run *)

(** The table is empty, or holds the one entry of [demo], whose handle is
    a process that has not been closed and, as long as the server has not
    exited, has not been sent a signal. *)
Definition tracked_ok (st : state) : Prop :=
  ffmpegProcesses st = [] \/
  exists p c,
    ffmpegProcesses st = [("demo", p)] /\ children st !! p = Some c /\
    closed c = None /\ (exited st = None -> signals c = []).

Definition well_run (__dirname : string) (st : state) : Prop :=
  Forall (demo_job __dirname) (children st) /\
  Forall (demo_timer __dirname) (timers st) /\
  tracked_ok st /\
  Forall (fun c => length (signals c) <= 1) (children st).

(** * Properties *)

(** ** Paths and file names on examples *)

Example join_demo :
  path.join ["/srv/app/media"; "live"; "demo"] = "/srv/app/media/live/demo".
Proof. vm_compute. reflexivity. Qed.

Example join_parent_segments :
  path.join ["/srv/app/media"; "live"; "../../../etc"] = "/srv/etc".
Proof. vm_compute. reflexivity. Qed.

Example join_skips_empty :
  path.join ["/srv/app/media"; "live"; ""] = "/srv/app/media/live".
Proof. vm_compute. reflexivity. Qed.

Example join_relative_above :
  path.join ["a"; "../../b/"] = "../b/".
Proof. vm_compute. reflexivity. Qed.

Example endsWith_playlist : Str.endsWith "/a/b/index.m3u8" ".m3u8" = true.
Proof. vm_compute. reflexivity. Qed.

Example endsWith_longer_suffix : Str.endsWith "ts" ".ts" = false.
Proof. vm_compute. reflexivity. Qed.

Example ancestors_demo :
  ancestors "/srv/app/media" = ["/srv"; "/srv/app"; "/srv/app/media"].
Proof. vm_compute. reflexivity. Qed.

(** ** The table *)

Module JsMapFacts.
Section Facts.
Context {V : Type}.
Implicit Types (m : JsMap.t V) (k : string) (v : V).

Lemma get_set_eq m k v : JsMap.get k (JsMap.set k v m) = Some v.
Proof.
    induction m as [|[k' v'] m IH]; simpl.
    - now rewrite String.eqb_refl.
    - destruct (String.eqb k' k) eqn:E; simpl.
      + now rewrite String.eqb_refl.
      + now rewrite E.
Qed.

Lemma get_set_ne m k k' v :
    k' <> k -> JsMap.get k' (JsMap.set k v m) = JsMap.get k' m.
Proof.
    intros Hne. induction m as [|[k0 v0] m IH]; simpl.
    - destruct (String.eqb_spec k k'); congruence.
    - destruct (String.eqb_spec k0 k) as [->|Hk]; simpl.
      + destruct (String.eqb_spec k k'); congruence.
      + now rewrite IH.
Qed.

Lemma get_delete_eq m k : JsMap.get k (JsMap.delete k m) = None.
Proof.
    induction m as [|[k' v'] m IH]; simpl; [reflexivity|].
    destruct (String.eqb k' k) eqn:E; simpl; [assumption|].
    now rewrite E.
Qed.

Lemma get_delete_ne m k k' :
    k' <> k -> JsMap.get k' (JsMap.delete k m) = JsMap.get k' m.
Proof.
    intros Hne. induction m as [|[k0 v0] m IH]; simpl; [reflexivity|].
    destruct (String.eqb_spec k0 k) as [->|Hk]; simpl.
    - destruct (String.eqb_spec k k'); congruence.
    - now rewrite IH.
Qed.

Lemma get_entries m k v : JsMap.get k m = Some v -> (k, v) ∈ JsMap.entries m.
Proof.
    unfold JsMap.entries.
    induction m as [|[k' v'] m IH]; simpl; [discriminate|].
    destruct (String.eqb_spec k' k) as [->|Hk].
    - intros [= ->]. apply list_elem_of_here.
    - intros H. apply list_elem_of_further, IH, H.
Qed.

Lemma keys_set_in m k v k' :
    k' ∈ (JsMap.set k v m).*1 -> k' = k \/ k' ∈ m.*1.
Proof.
    induction m as [|[k0 v0] m IH]; simpl.
    - intros H. apply list_elem_of_singleton in H. now left.
    - destruct (String.eqb_spec k0 k) as [->|Hk]; simpl; intros H.
      + apply elem_of_cons in H as [->|H]; [now left|].
        right. now apply list_elem_of_further.
      + apply elem_of_cons in H as [->|H].
        * right. apply list_elem_of_here.
        * destruct (IH H) as [->|H']; [now left|].
          right. now apply list_elem_of_further.
Qed.

Lemma keys_delete_in m k k' :
    k' ∈ (JsMap.delete k m).*1 -> k' ∈ m.*1.
Proof.
    induction m as [|[k0 v0] m IH]; simpl; [trivial|].
    destruct (String.eqb_spec k0 k) as [->|Hk]; simpl; intros H.
    - now apply list_elem_of_further, IH.
    - apply elem_of_cons in H as [->|H].
      + apply list_elem_of_here.
      + now apply list_elem_of_further, IH.
Qed.

  (** A table built with [set] and [delete] never lists a key twice. *)
Lemma NoDup_set m k v : NoDup m.*1 -> NoDup (JsMap.set k v m).*1.
Proof.
    induction m as [|[k0 v0] m IH]; simpl; intros Hnd.
    - apply NoDup_singleton.
    - apply NoDup_cons in Hnd as [Hnotin Hnd].
      destruct (String.eqb_spec k0 k) as [->|Hk]; simpl.
      + now apply NoDup_cons.
      + apply NoDup_cons. split; [|now apply IH].
        intros Hin. apply keys_set_in in Hin as [->|Hin];
          [congruence | exact (Hnotin Hin)].
Qed.

Lemma NoDup_delete m k : NoDup m.*1 -> NoDup (JsMap.delete k m).*1.
Proof.
    induction m as [|[k0 v0] m IH]; simpl; intros Hnd; [assumption|].
    apply NoDup_cons in Hnd as [Hnotin Hnd].
    destruct (String.eqb_spec k0 k) as [->|Hk]; simpl; [now apply IH|].
    apply NoDup_cons. split; [|now apply IH].
    intros Hin. apply keys_delete_in in Hin. exact (Hnotin Hin).
Qed.
End Facts.
End JsMapFacts.
Import JsMapFacts.

(** ** Running a handler *)

(** Unfolds the primitive operations of the state monad. *)
Ltac prims :=
  unfold exec, mbind, M_bind, mret, M_ret, console_log, setTimeout,
    processes_get, processes_set, processes_delete, processes_entries,
    process_exit, spawn, fs_existsSync, fs_mkdirSync, take_timer, child,
    close_child, set_children in *.

Ltac reduce := cbn -[outputDir ffmpegArgs ancestors path.join] in *.

(** Case analysis on whatever the handler branches on. *)
Ltac branch :=
  repeat (reduce;
          match goal with
          | |- context [match ?x with _ => _ end] =>
              lazymatch x with
              | context [match _ with _ => _ end] => fail
              | _ => destruct x eqn:?
              end
          end).

(** ** Signals *)

Lemma signalled_refl c : signalled c c.
Proof.
  repeat split. exists 0. simpl. now rewrite app_nil_r.
Qed.

Lemma signalled_trans c1 c2 c3 :
  signalled c1 c2 -> signalled c2 c3 -> signalled c1 c3.
Proof.
  intros (Hf & Ha & Hk & Hc & n & Hs) (Hf' & Ha' & Hk' & Hc' & n' & Hs').
  repeat split; try congruence.
  exists (n + n'). rewrite Hs', Hs, replicate_add. now rewrite app_assoc.
Qed.

Lemma signalled_send c : signalled c (send_signal "SIGTERM" c).
Proof. repeat split. now exists 1. Qed.

Lemma signalled_list_refl cs : Forall2 signalled cs cs.
Proof. induction cs; constructor; auto using signalled_refl. Qed.

Lemma signalled_list_trans cs1 cs2 cs3 :
  Forall2 signalled cs1 cs2 -> Forall2 signalled cs2 cs3 ->
  Forall2 signalled cs1 cs3.
Proof.
  intros H12 H23.
  eapply Forall2_trans; [| exact H12 | exact H23].
  intros ? ? ?. apply signalled_trans.
Qed.

Lemma kill_children ffmpeg st :
  Forall2 signalled (children st) (children (kill ffmpeg "SIGTERM" st).2).
Proof.
  unfold kill. destruct (children st !! ffmpeg) as [c|] eqn:Hc; simpl.
  - destruct (running c); simpl; [|apply signalled_list_refl].
    rewrite <- (list_insert_id _ _ _ Hc) at 1.
    apply Forall2_insert; [apply signalled_list_refl | apply signalled_send].
  - apply signalled_list_refl.
Qed.

Lemma kill_frame ffmpeg sig st :
  let st' := (kill ffmpeg sig st).2 in
  ffmpegProcesses st' = ffmpegProcesses st /\ timers st' = timers st /\
  dirs st' = dirs st /\ exited st' = exited st /\ console st' = console st.
Proof.
  unfold kill. destruct (children st !! ffmpeg) as [c|]; simpl; auto.
  destruct (running c); simpl; auto.
Qed.

Lemma kill_running ffmpeg c st :
  children st !! ffmpeg = Some c -> running c = true ->
  children (kill ffmpeg "SIGTERM" st).2 =
  <[ffmpeg := send_signal "SIGTERM" c]> (children st).
Proof. intros Hc Hr. unfold kill. now rewrite Hc, Hr. Qed.

(** *** The loop of the interrupt handler *)

Lemma stop_each_children entries st :
  Forall2 signalled (children st) (children (stop_each entries st).2).
Proof.
  revert st. induction entries as [|[k p] entries IH]; intros st.
  - apply signalled_list_refl.
  - simpl. prims.
    destruct (kill p "SIGTERM" _) as [b st1] eqn:Hk.
    eapply signalled_list_trans; [|apply IH].
    change st1 with (b, st1).2. rewrite <- Hk.
    apply (kill_children p
             {| ffmpegProcesses := ffmpegProcesses st; children := children st;
                timers := timers st; dirs := dirs st;
                console := console st ++ [Stopping k]; exited := exited st |}).
Qed.

Lemma stop_each_frame entries st :
  let st' := (stop_each entries st).2 in
  ffmpegProcesses st' = ffmpegProcesses st /\ timers st' = timers st /\
  dirs st' = dirs st /\ exited st' = exited st.
Proof.
  revert st. induction entries as [|[k p] entries IH]; intros st; simpl.
  - auto.
  - prims.
    destruct (kill p "SIGTERM" _) as [b st1] eqn:Hk.
    pose proof (kill_frame p "SIGTERM"
             {| ffmpegProcesses := ffmpegProcesses st; children := children st;
                timers := timers st; dirs := dirs st;
                console := console st ++ [Stopping k]; exited := exited st |})
      as Hf.
    rewrite Hk in Hf. simpl in Hf. destruct Hf as (F1 & F2 & F3 & F4 & _).
    destruct (IH st1) as (G1 & G2 & G3 & G4).
    repeat split; congruence.
Qed.

(** Every process listed in the loop that has not ended has [SIGTERM]
    among its signals afterwards. *)
Lemma stop_each_sends entries st k p c :
  (k, p) ∈ entries -> children st !! p = Some c -> running c = true ->
  exists c', children (stop_each entries st).2 !! p = Some c' /\
             "SIGTERM" ∈ signals c' /\ closed c' = None.
Proof.
  revert st c. induction entries as [|[k0 p0] entries IH]; intros st c Hin Hc Hr.
  - now apply elem_of_nil in Hin.
  - simpl. prims.
    set (st0 := {| ffmpegProcesses := ffmpegProcesses st; children := children st;
                   timers := timers st; dirs := dirs st;
                   console := console st ++ [Stopping k0]; exited := exited st |}).
    pose proof (kill_children p0 st0) as Hsig.
    destruct (kill p0 "SIGTERM" st0) as [b st1] eqn:Hk. simpl in Hsig.
    apply elem_of_cons in Hin as [[= <- <-]|Hin].
    + pose proof (kill_running p c st0 Hc Hr) as Hch.
      rewrite Hk in Hch. simpl in Hch.
      pose proof (stop_each_children entries st1) as Hrest.
      assert (Hp : children st1 !! p = Some (send_signal "SIGTERM" c)).
      { rewrite Hch. apply list_lookup_insert_eq. eapply lookup_lt_Some, Hc. }
      destruct (Forall2_lookup_l _ _ _ _ _ Hrest Hp)
        as (c' & Hc' & _ & _ & _ & Hcl & n & Hs).
      exists c'. split; [exact Hc'|]. split.
      * rewrite Hs. simpl. apply elem_of_app. left.
        apply elem_of_app. right. apply list_elem_of_here.
      * rewrite Hcl. simpl. unfold running in Hr.
        destruct (closed c); [discriminate|reflexivity].
    + destruct (Forall2_lookup_l _ _ _ _ _ Hsig Hc)
        as (c1 & Hc1 & _ & _ & _ & Hcl & _).
      apply (IH st1 c1 Hin Hc1).
      unfold running in *. now rewrite Hcl.
Qed.

(** ** What each handler does to the state *)

Lemma signalled_aged c c' : signalled c c' -> aged c c'.
Proof. intros (? & ? & ? & _ & ?). repeat split; assumption. Qed.

Lemma aged_refl c : aged c c.
Proof. apply signalled_aged, signalled_refl. Qed.

Lemma aged_list_refl cs : Forall2 aged cs cs.
Proof. induction cs; constructor; auto using aged_refl. Qed.

Lemma signalled_aged_list cs cs' :
  Forall2 signalled cs cs' -> Forall2 aged cs cs'.
Proof. intros H. eapply Forall2_impl; [exact H | apply signalled_aged]. Qed.

Lemma aged_mark_closed code cs ffmpeg :
  Forall2 aged cs (alter (mark_closed code) ffmpeg cs).
Proof.
  apply Forall2_alter_r; [apply aged_list_refl|].
  intros c c' _ _ H. destruct H as (? & ? & ? & ?). repeat split; assumption.
Qed.

Section Handlers.
Variable __dirname : string.

Lemma start_children k st :
  children (exec (startFFmpegTranscoding __dirname k) st)
  = children st ++ [new_job __dirname k].
Proof. unfold startFFmpegTranscoding. prims. branch; reflexivity. Qed.

Lemma start_table k st :
  ffmpegProcesses (exec (startFFmpegTranscoding __dirname k) st) =
  JsMap.set k (length (children st)) (ffmpegProcesses st).
Proof. unfold startFFmpegTranscoding. prims. branch; reflexivity. Qed.

Lemma start_timers k st :
  timers (exec (startFFmpegTranscoding __dirname k) st)
  = timers st ++ [check_timer __dirname k].
Proof. unfold startFFmpegTranscoding. prims. branch; reflexivity. Qed.

Lemma start_exited k st :
  exited (exec (startFFmpegTranscoding __dirname k) st) = exited st.
Proof. unfold startFFmpegTranscoding. prims. branch; reflexivity. Qed.

Lemma start_dirs k st :
  dirs (exec (startFFmpegTranscoding __dirname k) st) =
  if bool_decide (outputDir __dirname k ∈ dirs st) then dirs st
  else dirs st ∪ list_to_set (ancestors (outputDir __dirname k)).
Proof. unfold startFFmpegTranscoding. prims. branch; reflexivity. Qed.

Lemma stop_absent k st :
  JsMap.get k (ffmpegProcesses st) = None -> exec (stopFFmpegTranscoding k) st = st.
Proof. intros H. unfold stopFFmpegTranscoding. prims. now rewrite H. Qed.

Lemma stop_frame k st :
  let st' := exec (stopFFmpegTranscoding k) st in
  ffmpegProcesses st' = JsMap.delete k (ffmpegProcesses st) /\
  timers st' = timers st /\ dirs st' = dirs st /\ exited st' = exited st /\
  Forall2 signalled (children st) (children st').
Proof.
  unfold stopFFmpegTranscoding. prims.
  destruct (JsMap.get k (ffmpegProcesses st)) as [p|] eqn:Hg; reduce.
  - set (st0 := {| ffmpegProcesses := ffmpegProcesses st; children := children st;
                   timers := timers st; dirs := dirs st;
                   console := console st ++ [StoppingFFmpegFor k];
                   exited := exited st |}).
    pose proof (kill_children p st0) as Hsig.
    pose proof (kill_frame p "SIGTERM" st0) as Hf.
    destruct (kill p "SIGTERM" st0) as [b st1]. reduce.
    destruct Hf as (F1 & F2 & F3 & F4 & _).
    rewrite F1. auto.
  - repeat split; auto using signalled_list_refl.
    clear -Hg. induction (ffmpegProcesses st) as [|[k' v'] m IH]; simpl in *;
      [reflexivity|].
    destruct (String.eqb k' k); [discriminate|]. now rewrite <- IH.
Qed.

Lemma stop_signals k p c st :
  JsMap.get k (ffmpegProcesses st) = Some p ->
  children st !! p = Some c -> running c = true ->
  children (exec (stopFFmpegTranscoding k) st) =
  <[p := send_signal "SIGTERM" c]> (children st).
Proof.
  intros Hg Hc Hr. unfold stopFFmpegTranscoding. prims. rewrite Hg. reduce.
  unfold kill. reduce. now rewrite Hc, Hr.
Qed.

Lemma sigint_frame st :
  let st' := exec on_SIGINT st in
  ffmpegProcesses st' = ffmpegProcesses st /\ timers st' = timers st /\
  dirs st' = dirs st /\ exited st' = Some 0%Z /\
  Forall2 signalled (children st) (children st').
Proof.
  unfold on_SIGINT. prims. reduce.
  set (st0 := {| ffmpegProcesses := ffmpegProcesses st; children := children st;
                 timers := timers st; dirs := dirs st;
                 console := console st ++ [ShuttingDown]; exited := exited st |}).
  pose proof (stop_each_children (JsMap.entries (ffmpegProcesses st)) st0) as Hsig.
  pose proof (stop_each_frame (JsMap.entries (ffmpegProcesses st)) st0) as Hf.
  destruct (stop_each _ st0) as [u st1]. reduce.
  destruct Hf as (F1 & F2 & F3 & F4). auto.
Qed.

End Handlers.

Lemma list_delete_out_of_range {A} (l : list A) n :
  length l <= n -> delete n l = l.
Proof.
  revert n. induction l as [|x l IH]; intros [|n] Hn; simpl in *;
    try reflexivity; [lia|].
  f_equal. apply IH. lia.
Qed.

Section Steps.
Variable __dirname : string.

Lemma step_exited_state ev st : exited st <> None -> step __dirname ev st = st.
Proof. unfold step. destruct (exited st); congruence. Qed.

Lemma step_live ev st :
  exited st = None -> step __dirname ev st = exec (handle __dirname ev) st.
Proof. unfold step. now intros ->. Qed.

Lemma run_app evs evs' st :
  run __dirname (evs ++ evs') st = run __dirname evs' (run __dirname evs st).
Proof. unfold run. apply foldl_app. Qed.

Lemma run_cons ev evs st :
  run __dirname (ev :: evs) st = run __dirname evs (step __dirname ev st).
Proof. reflexivity. Qed.

(** The processes after one event: the ones before, aged, followed by
    at most one new one, spawned by an expiring start timer. *)
Lemma step_children ev st :
  exists cs news,
    children (step __dirname ev st) = cs ++ news /\
    Forall2 aged (children st) cs /\
    (news = [] \/
     exists n files k d,
       ev = Timeout n files /\
       timers st !! n = Some {| callback_of := StartTranscoding k; delay := d |} /\
       news = [new_job __dirname k]).
Proof.
  unfold step. destruct (exited st) eqn:Hex.
  { exists (children st), []. rewrite app_nil_r. auto using aged_list_refl. }
  destruct ev; unfold handle.
  1-3, 6-7: (exists (children st), []; rewrite app_nil_r;
             prims; reduce; auto using aged_list_refl).
  - exists (children st), []. rewrite app_nil_r.
    unfold on_postPublish; prims; reduce; auto using aged_list_refl.
  - unfold on_donePublish. prims. reduce.
    set (st0 := {| console := console st ++ [StreamEnded] |}).
    destruct (stop_frame "demo" st0) as (_ & _ & _ & _ & Hsig).
    unfold exec in Hsig.
    exists (children (stopFFmpegTranscoding "demo" st0).2), [].
    rewrite app_nil_r. split; [reflexivity|]. split; [|now left].
    apply signalled_aged_list, Hsig.
  - prims. reduce. destruct (timers st !! n) as [[cb d]|] eqn:Ht; reduce.
    + destruct cb as [k|dir k]; reduce.
      * pose proof (start_children __dirname k
                      {| ffmpegProcesses := ffmpegProcesses st;
                         children := children st;
                         timers := delete n (timers st); dirs := dirs st;
                         console := console st; exited := exited st |}) as Hs.
        unfold exec in Hs. reduce. rewrite Hs.
        exists (children st), [new_job __dirname k]. split; [reflexivity|].
        split; [apply aged_list_refl|]. right. now exists n, files, k, d.
      * exists (children st), []. rewrite app_nil_r.
        split; [|auto using aged_list_refl].
        unfold checkFiles. prims. branch; reflexivity.
    + exists (children st), []. rewrite app_nil_r. auto using aged_list_refl.
  - exists (children st), []. rewrite app_nil_r.
    split; [|auto using aged_list_refl].
    prims. unfold on_error. prims. branch; reflexivity.
  - prims. reduce. destruct (children st !! ffmpeg) as [c|] eqn:Hc; reduce.
    + destruct (running c); reduce.
      * exists (alter (mark_closed code) ffmpeg (children st)), [].
        rewrite app_nil_r. split; [|auto using aged_mark_closed].
        unfold on_close. prims. branch; reflexivity.
      * exists (children st), []. rewrite app_nil_r. auto using aged_list_refl.
    + exists (children st), []. rewrite app_nil_r. auto using aged_list_refl.
  - destruct (sigint_frame st) as (_ & _ & _ & _ & Hsig).
    exists (children (exec on_SIGINT st)), []. rewrite app_nil_r.
    split; [reflexivity|]. split; [|now left].
    apply signalled_aged_list, Hsig.
Qed.

(** The pending timers after one event. *)
Lemma step_timers ev st :
  timers (step __dirname ev st) = timers st \/
  (exists StreamPath,
      ev = PostPublish StreamPath /\
      timers (step __dirname ev st) = timers st ++ [start_timer "demo"]) \/
  (exists n files t,
      ev = Timeout n files /\ timers st !! n = Some t /\
      timers (step __dirname ev st) =
      delete n (timers st) ++
      match callback_of t with
      | StartTranscoding k => [check_timer __dirname k]
      | CheckFiles _ _ => []
      end).
Proof.
  unfold step. destruct (exited st) eqn:Hex; [now left|].
  destruct ev; unfold handle.
  1-3, 6-7: (left; prims; reflexivity).
  - right. left. exists StreamPath. split; [reflexivity|].
    unfold on_postPublish. prims. reflexivity.
  - left. unfold on_donePublish. prims. reduce.
    set (st0 := {| console := console st ++ [StreamEnded] |}).
    destruct (stop_frame "demo" st0) as (_ & Ht & _). exact Ht.
  - prims. reduce. destruct (timers st !! n) as [[cb d]|] eqn:Ht; reduce.
    + right. right. exists n, files, {| callback_of := cb; delay := d |}.
      split; [reflexivity|]. split; [exact Ht|].
      destruct cb as [k|dir k]; reduce.
      * apply (start_timers __dirname k
                 {| ffmpegProcesses := ffmpegProcesses st;
                    children := children st;
                    timers := delete n (timers st); dirs := dirs st;
                    console := console st; exited := exited st |}).
      * rewrite app_nil_r. unfold checkFiles. prims. branch; reflexivity.
    + left. apply list_delete_out_of_range. now apply lookup_ge_None.
  - left. prims. unfold on_error. prims. branch; reflexivity.
  - left. prims. unfold on_close. prims. branch; reflexivity.
  - left. destruct (sigint_frame st) as (_ & Ht & _). exact Ht.
Qed.

(** The table after one event. *)
Lemma step_table ev st :
  ffmpegProcesses (step __dirname ev st) = ffmpegProcesses st \/
  (exists k, ffmpegProcesses (step __dirname ev st)
             = JsMap.delete k (ffmpegProcesses st)) \/
  (exists k, ffmpegProcesses (step __dirname ev st) =
             JsMap.set k (length (children st)) (ffmpegProcesses st)).
Proof.
  unfold step. destruct (exited st) eqn:Hex; [now left|].
  destruct ev; unfold handle.
  1-3, 6-7: (left; prims; reflexivity).
  - left. unfold on_postPublish. prims. reflexivity.
  - right. left. exists "demo". unfold on_donePublish. prims. reduce.
    set (st0 := {| console := console st ++ [StreamEnded] |}).
    destruct (stop_frame "demo" st0) as (Ht & _). exact Ht.
  - prims. reduce. destruct (timers st !! n) as [[cb d]|] eqn:Ht; reduce.
    + destruct cb as [k|dir k]; reduce.
      * right. right. exists k.
        apply (start_table __dirname k
                 {| ffmpegProcesses := ffmpegProcesses st;
                    children := children st;
                    timers := delete n (timers st); dirs := dirs st;
                    console := console st; exited := exited st |}).
      * left. unfold checkFiles. prims. branch; reflexivity.
    + now left.
  - left. prims. unfold on_error. prims. branch; reflexivity.
  - prims. reduce. destruct (children st !! ffmpeg) as [c|] eqn:Hc; reduce.
    + destruct (running c); reduce; [|now left].
      right. left. exists (handlerKey c).
      unfold on_close. prims. branch; reflexivity.
    + now left.
  - left. destruct (sigint_frame st) as (Ht & _). exact Ht.
Qed.

(** *** Invariants of a run *)

Lemma step_keys ev st :
  NoDup (ffmpegProcesses st).*1 -> NoDup (ffmpegProcesses (step __dirname ev st)).*1.
Proof.
  intros Hnd.
  destruct (step_table ev st) as [-> | [[k ->] | [k ->]]];
    auto using NoDup_set, NoDup_delete.
Qed.

Lemma aged_sigterm_only c c' : aged c c' -> sigterm_only c -> sigterm_only c'.
Proof.
  intros (_ & _ & _ & n & Hs) Hc. unfold sigterm_only in *. rewrite Hs.
  apply Forall_app. split; [assumption|].
  apply Forall_replicate. reflexivity.
Qed.

Lemma step_sigterm_only ev st :
  Forall sigterm_only (children st) ->
  Forall sigterm_only (children (step __dirname ev st)).
Proof.
  intros Hall.
  destruct (step_children ev st) as (cs & news & -> & Haged & Hnews).
  apply Forall_app. split.
  - clear Hnews. induction Haged as [|c c' l l' Hcc' _ IH]; [constructor|].
    apply Forall_cons in Hall as [Hc Hl].
    constructor; [eapply aged_sigterm_only; eassumption | now apply IH].
  - destruct Hnews as [-> | (n & files & k & d & _ & _ & ->)]; [constructor|].
    repeat constructor.
Qed.

Lemma aged_demo_job c c' : aged c c' -> demo_job __dirname c -> demo_job __dirname c'.
Proof.
  intros (Hf & Ha & Hk & _) (Jf & Ja & Jk). unfold demo_job. repeat split; congruence.
Qed.

Lemma step_demo ev st :
  Forall (demo_job __dirname) (children st) /\
  Forall (demo_timer __dirname) (timers st) ->
  Forall (demo_job __dirname) (children (step __dirname ev st)) /\
  Forall (demo_timer __dirname) (timers (step __dirname ev st)).
Proof.
  intros [Hjobs Htimers]. split.
  - destruct (step_children ev st) as (cs & news & -> & Haged & Hnews).
    apply Forall_app. split.
    + clear Hnews. induction Haged as [|c c' l l' Hcc' _ IH]; [constructor|].
      apply Forall_cons in Hjobs as [Hc Hl].
      constructor; [eapply aged_demo_job; eassumption | now apply IH].
    + destruct Hnews as [-> | (n & files & k & d & _ & Ht & ->)]; [constructor|].
      apply (Forall_lookup_1 _ _ _ _ Htimers) in Ht.
      destruct Ht as [Ht|Ht]; [|discriminate].
      injection Ht as -> _. apply Forall_singleton. repeat split.
  - destruct (step_timers ev st)
      as [-> | [(sp & _ & ->) | (n & files & t & _ & Ht & ->)]].
    + assumption.
    + apply Forall_app. split; [assumption|].
      apply Forall_singleton. now left.
    + apply Forall_app. split; [now apply Forall_delete|].
      apply (Forall_lookup_1 _ _ _ _ Htimers) in Ht.
      destruct Ht as [-> | ->]; simpl; [|constructor].
      apply Forall_singleton. now right.
Qed.

(** Without a publish and without a pending start, no process is
    spawned and none becomes pending. *)
Lemma step_quiet ev st :
  is_publish ev = false -> no_pending_start st ->
  length (children (step __dirname ev st)) = length (children st) /\
  no_pending_start (step __dirname ev st).
Proof.
  intros Hev Hq. unfold no_pending_start in *. split.
  - destruct (step_children ev st) as (cs & news & -> & Haged & Hnews).
    apply Forall2_length in Haged.
    destruct Hnews as [-> | (n & files & k & d & _ & Ht & ->)].
    + rewrite app_nil_r. congruence.
    + apply (Forall_lookup_1 _ _ _ _ Hq) in Ht. discriminate.
  - destruct (step_timers ev st)
      as [-> | [(sp & -> & _) | (n & files & t & _ & Ht & ->)]].
    + assumption.
    + discriminate.
    + apply Forall_app. split; [now apply Forall_delete|].
      apply (Forall_lookup_1 _ _ _ _ Hq) in Ht.
      destruct t as [[k|dir k] d]; [discriminate|constructor].
Qed.

Lemma run_quiet evs st :
  Forall (fun ev => is_publish ev = false) evs -> no_pending_start st ->
  length (children (run __dirname evs st)) = length (children st).
Proof.
  revert st. induction evs as [|ev evs IH]; intros st Hevs Hq; [reflexivity|].
  apply Forall_cons in Hevs as [Hev Hevs]. rewrite run_cons.
  destruct (step_quiet ev st Hev Hq) as [Hlen Hq'].
  rewrite (IH _ Hevs Hq'). exact Hlen.
Qed.

Lemma run_invariant (P : state -> Prop) evs st :
  (forall ev st, P st -> P (step __dirname ev st)) -> P st -> P (run __dirname evs st).
Proof.
  intros Hstep. revert st. induction evs as [|ev evs IH]; intros st HP; [exact HP|].
  rewrite run_cons. apply IH, Hstep, HP.
Qed.

(** A publish followed by the expiry of the timer it created: a process
    is spawned for [demo] and stored in the table, whatever was there. *)
Lemma publish_then_start StreamPath files st :
  exited st = None ->
  let st' := run __dirname
               [PostPublish StreamPath; Timeout (length (timers st)) files] st in
  children st' = children st ++ [new_job __dirname "demo"] /\
  ffmpegProcesses st' = JsMap.set "demo" (length (children st)) (ffmpegProcesses st) /\
  timers st' = timers st ++ [check_timer __dirname "demo"] /\
  exited st' = None.
Proof.
  intros Hex st'.
  assert (Hrun : st' =
                 exec (startFFmpegTranscoding __dirname "demo")
                   {| ffmpegProcesses := ffmpegProcesses st;
                      children := children st; timers := timers st;
                      dirs := dirs st;
                      console := (console st ++ [StreamStarted]) ++
                                 [StartingTranscodingFor "demo"];
                      exited := exited st |}).
  { unfold st', run. simpl.
    rewrite (step_live _ st Hex). unfold handle at 1, on_postPublish. prims. reduce.
    set (st1 := {| timers := timers st ++ _ |}).
    rewrite (step_live _ st1 Hex). unfold handle. prims. reduce.
    rewrite list_lookup_middle by reflexivity. reduce.
    now rewrite delete_middle, app_nil_r. }
  rewrite Hrun, start_children, start_table, start_timers, start_exited.
  simpl. auto.
Qed.

Lemma live_jobs_snoc k st st' c :
  children st' = children st ++ [c] -> handlerKey c = k -> closed c = None ->
  live_jobs k st' = live_jobs k st ++ [length (children st)].
Proof.
  intros Hch Hk Hc. unfold live_jobs.
  rewrite Hch, length_app, Nat.add_1_r, seq_S, List.filter_app. simpl.
  f_equal.
  - apply List.filter_ext_in. intros p Hp. apply in_seq in Hp.
    unfold live_for. rewrite Hch, lookup_app_l by lia. reflexivity.
  - unfold live_for. rewrite Hch, list_lookup_middle by reflexivity.
    unfold running. rewrite Hk, Hc, String.eqb_refl. reflexivity.
Qed.

(** The expiry of a start timer runs [startFFmpegTranscoding] on the
    state without that timer. *)
Lemma timeout_start n files k t st :
  exited st = None -> timers st !! n = Some t ->
  callback_of t = StartTranscoding k ->
  step __dirname (Timeout n files) st =
  exec (startFFmpegTranscoding __dirname k) (take_timer n st).2.
Proof.
  intros Hex Ht Hk. rewrite (step_live _ st Hex). unfold handle. prims. reduce.
  rewrite Ht. reduce. rewrite Hk. reflexivity.
Qed.

(** In every run all jobs and timers are those of the stream key
    [demo]. *)
Lemma run_demo_only fs evs :
  let st := run __dirname evs (initial __dirname fs) in
  Forall (demo_job __dirname) (children st) /\
  Forall (demo_timer __dirname) (timers st).
Proof.
  apply (run_invariant
           (fun st => Forall (demo_job __dirname) (children st) /\
                      Forall (demo_timer __dirname) (timers st))).
  - intros ev st. apply step_demo.
  - split; constructor.
Qed.

(** The delivery of [close] for a process that has not been closed. *)
Lemma close_spec ffmpeg code c st :
  exited st = None -> children st !! ffmpeg = Some c -> closed c = None ->
  step __dirname (ChildClose ffmpeg code) st =
  {| ffmpegProcesses := JsMap.delete (handlerKey c) (ffmpegProcesses st);
     children := alter (mark_closed code) ffmpeg (children st);
     timers := timers st; dirs := dirs st;
     console := (console st ++ [ProcessExitedWithCode code]) ++
                [if bool_decide (code = Some 0%Z) then FinishedSuccessfully
                 else ExitedWithErrorCode code];
     exited := exited st |}.
Proof.
  intros Hex Hc Hcl. rewrite (step_live _ st Hex). unfold handle. prims. reduce.
  rewrite Hc. reduce. unfold running. rewrite Hcl. reduce.
  unfold on_close. prims. reduce.
  destruct (bool_decide (code = Some 0%Z)); reflexivity.
Qed.


(** The interrupt handler reaches every process of the table. *)
Lemma sigint_sends k p c st :
  JsMap.get k (ffmpegProcesses st) = Some p ->
  children st !! p = Some c -> running c = true ->
  exists c', children (exec on_SIGINT st) !! p = Some c' /\
             "SIGTERM" ∈ signals c' /\ closed c' = None.
Proof.
  intros Hget Hc Hr. unfold on_SIGINT. prims. reduce.
  set (st0 := {| console := console st ++ [ShuttingDown] |}).
  destruct (stop_each_sends (JsMap.entries (ffmpegProcesses st)) st0 k p c)
    as (c' & Hc' & Hs); [now apply get_entries | exact Hc | exact Hr |].
  destruct (stop_each _ st0) as [u st1]. reduce. now exists c'.
Qed.

End Steps.

(** ** File names *)

Lemma endsWith_ts_not_m3u8 filePath :
  Str.endsWith filePath ".ts" = true -> Str.endsWith filePath ".m3u8" = false.
Proof.
  unfold Str.endsWith. intros Hts.
  apply bool_decide_eq_true in Hts. apply bool_decide_eq_false. intros Hm.
  destruct Hts as [l Hl]. rewrite Hl in Hm.
  change (list_ascii_of_string ".m3u8")
    with (list_ascii_of_string ".m3u" ++ ["8"%char]) in Hm.
  change (list_ascii_of_string ".ts")
    with (list_ascii_of_string ".t" ++ ["s"%char]) in Hm.
  rewrite (app_assoc l) in Hm.
  apply suffix_snoc_inv_1 in Hm. discriminate.
Qed.

(** ** Paths built from clean segments *)

Lemma append_cons c (a b : string) : String c a +:+ b = String c (a +:+ b).
Proof. reflexivity. Qed.

Lemma append_nil (b : string) : "" +:+ b = b.
Proof. reflexivity. Qed.

Lemma chars_append (a b : string) :
  list_ascii_of_string (a +:+ b) = list_ascii_of_string a ++ list_ascii_of_string b.
Proof.
  induction a as [|c a IH]; [reflexivity|].
  rewrite append_cons. simpl. now rewrite IH.
Qed.

Lemma append_assoc (a b c : string) : (a +:+ b) +:+ c = a +:+ (b +:+ c).
Proof.
  induction a as [|x a IH]; [reflexivity|].
  rewrite !append_cons. now rewrite IH.
Qed.

Lemma split_no_slash s : has_slash s = false -> Str.split "/" s = [s].
Proof.
  induction s as [|c s IH]; simpl; [reflexivity|].
  intros H. apply orb_false_iff in H as [Hc Hs].
  rewrite Hc, (IH Hs). reflexivity.
Qed.

Lemma split_slash b : Str.split "/" (String "/" b) = "" :: Str.split "/" b.
Proof. reflexivity. Qed.

Lemma split_append a b :
  has_slash a = false ->
  Str.split "/" (a +:+ String "/" b) = a :: Str.split "/" b.
Proof.
  induction a as [|c a IH]; [reflexivity|].
  rewrite append_cons. simpl.
  intros H. apply orb_false_iff in H as [Hc Hs].
  rewrite Hc, (IH Hs). reflexivity.
Qed.

Lemma join_cons x y l :
  Str.join "/" (x :: y :: l) = x +:+ String "/" (Str.join "/" (y :: l)).
Proof. reflexivity. Qed.

Lemma join_app l1 l2 :
  l1 <> [] -> l2 <> [] ->
  Str.join "/" (l1 ++ l2) = Str.join "/" l1 +:+ String "/" (Str.join "/" l2).
Proof.
  intros H1 H2. induction l1 as [|x l1 IH]; [congruence|].
  destruct l1 as [|y l1].
  - destruct l2 as [|z l2]; [congruence|]. reflexivity.
  - change ((x :: y :: l1) ++ l2) with (x :: y :: (l1 ++ l2)).
    rewrite !join_cons.
    change (y :: l1 ++ l2) with ((y :: l1) ++ l2).
    rewrite IH by discriminate. now rewrite append_assoc.
Qed.

Lemma split_join l :
  Forall (fun s => has_slash s = false) l -> l <> [] ->
  Str.split "/" (Str.join "/" l) = l.
Proof.
  intros Hl Hne. induction Hl as [|x l Hx Hl IH]; [congruence|].
  destruct l as [|y l].
  - now apply split_no_slash.
  - rewrite join_cons, split_append by exact Hx.
    now rewrite IH.
Qed.

Lemma clean_inv seg :
  clean seg = true ->
  String.eqb seg "" = false /\ String.eqb seg "." = false /\
  String.eqb seg ".." = false /\ has_slash seg = false.
Proof.
  unfold clean. rewrite !andb_true_iff, !negb_true_iff. tauto.
Qed.

Lemma clean_no_slash l :
  Forall (fun s => clean s = true) l -> Forall (fun s => has_slash s = false) l.
Proof.
  intros H. eapply Forall_impl; [exact H|].
  intros s Hs. now apply clean_inv in Hs.
Qed.

Lemma normalizeString_clean allowAboveRoot acc segs :
  Forall (fun s => clean s = true) segs ->
  path.normalizeString allowAboveRoot acc segs = rev acc ++ segs.
Proof.
  intros Hsegs. revert acc.
  induction Hsegs as [|seg segs Hseg _ IH]; intros acc; simpl.
  - now rewrite app_nil_r.
  - apply clean_inv in Hseg as (H0 & H1 & H2 & _).
    rewrite H0, H1, H2. simpl. rewrite IH. simpl.
    now rewrite <- app_assoc.
Qed.

Lemma clean_nonempty l :
  Forall (fun s => clean s = true) l -> filter (fun a => a <> "") l = l.
Proof.
  induction 1 as [|s l Hs _ IH]; [reflexivity|].
  rewrite filter_cons_True, IH; [reflexivity|].
  apply clean_inv in Hs as (H0 & _). now apply String.eqb_neq.
Qed.

Lemma join_clean_nonempty l :
  Forall (fun s => clean s = true) l -> l <> [] ->
  String.eqb (Str.join "/" l) "" = false.
Proof.
  intros Hl Hne. destruct Hl as [|x l Hx _]; [congruence|].
  apply clean_inv in Hx as (H0 & _).
  destruct x as [|c x]; [discriminate|].
  destruct l as [|y l]; [exact H0|].
  rewrite join_cons, append_cons. reflexivity.
Qed.

(** The last character of a clean segment is not a separator, so a path
    of clean segments does not end in one. *)
Lemma no_slash_chars s c :
  has_slash s = false -> c ∈ list_ascii_of_string s -> c <> "/"%char.
Proof.
  induction s as [|x s IH]; simpl; intros Hs Hc.
  - now apply elem_of_nil in Hc.
  - apply orb_false_iff in Hs as [Hx Hs].
    apply elem_of_cons in Hc as [-> | Hc]; [|now apply IH].
    intros ->. discriminate.
Qed.

Lemma join_ends_with_last l x :
  exists pre, Str.join "/" (l ++ [x]) = pre +:+ x.
Proof.
  destruct l as [|y l].
  - now exists "".
  - exists (Str.join "/" (y :: l) +:+ "/").
    rewrite join_app by (discriminate || congruence).
    now rewrite append_assoc.
Qed.

Lemma abs_path_no_trailing_separator segs :
  Forall (fun s => clean s = true) segs -> segs <> [] ->
  Str.endsWith (abs_path segs) "/" = false.
Proof.
  intros Hsegs Hne.
  destruct (exists_last Hne) as (l & x & ->).
  apply Forall_app in Hsegs as [_ Hx]. apply List.Forall_inv in Hx.
  apply clean_inv in Hx as (H0 & _ & _ & Hslash).
  unfold Str.endsWith. apply bool_decide_eq_false. intros Hsuf.
  destruct (join_ends_with_last l x) as [pre Hpre].
  unfold abs_path in Hsuf. rewrite Hpre, <- append_assoc, chars_append in Hsuf.
  destruct (list_ascii_of_string x) as [|c cs] eqn:Hx using rev_ind.
  - destruct x; [discriminate H0 | discriminate Hx].
  - clear IHcs. rewrite app_assoc in Hsuf.
    change (list_ascii_of_string "/") with ([] ++ ["/"%char]) in Hsuf.
    apply suffix_snoc_inv_1 in Hsuf.
    apply (no_slash_chars x c Hslash); [|now symmetry].
    rewrite Hx. apply elem_of_app. right. apply list_elem_of_here.
Qed.

Lemma abs_path_not_empty segs : String.eqb (abs_path segs) "" = false.
Proof. reflexivity. Qed.

Lemma abs_path_absolute segs : Str.startsWith (abs_path segs) "/" = true.
Proof.
  unfold Str.startsWith, abs_path. rewrite append_cons. simpl.
  destruct (ascii_dec "/" "/"); [|congruence].
  rewrite append_nil. now destruct (Str.join "/" segs).
Qed.

Lemma abs_path_split segs :
  Str.split "/" (abs_path segs) = "" :: Str.split "/" (Str.join "/" segs).
Proof. reflexivity. Qed.

Lemma normalize_abs_path segs :
  Forall (fun s => clean s = true) segs -> segs <> [] ->
  path.normalize (abs_path segs) = abs_path segs.
Proof.
  intros Hsegs Hne. unfold path.normalize.
  rewrite (abs_path_no_trailing_separator segs Hsegs Hne).
  rewrite abs_path_not_empty, abs_path_absolute, abs_path_split.
  rewrite split_join by (auto using clean_no_slash).
  change (path.normalizeString (negb true) [] ("" :: segs))
    with (path.normalizeString false [] segs).
  rewrite normalizeString_clean by exact Hsegs. simpl rev. rewrite app_nil_l.
  rewrite (join_clean_nonempty segs Hsegs Hne). reflexivity.
Qed.

(** [path.join] of an absolute path of clean segments with more clean
    segments appends them. *)
Lemma join_abs_path segs more :
  Forall (fun s => clean s = true) segs ->
  Forall (fun s => clean s = true) more -> more <> [] ->
  path.join (abs_path segs :: more) = abs_path (segs ++ more).
Proof.
  intros Hsegs Hmore Hne. unfold path.join.
  rewrite filter_cons_True by discriminate.
  rewrite (clean_nonempty more Hmore).
  destruct more as [|m more]; [congruence|].
  rewrite join_cons.
  destruct segs as [|s segs].
  - (* the root directory *)
    unfold path.normalize.
    change (abs_path []) with "/".
    change ("/" +:+ String "/" (Str.join "/" (m :: more)))
      with (abs_path ("" :: m :: more)).
    assert (Hend : Str.endsWith (abs_path ("" :: m :: more)) "/" = false).
    { pose proof (abs_path_no_trailing_separator (m :: more) Hmore Hne) as H.
      unfold Str.endsWith in *. apply bool_decide_eq_false.
      apply bool_decide_eq_false in H. intros Hsuf. apply H.
      change (abs_path ("" :: m :: more))
        with ("/" +:+ abs_path (m :: more)) in Hsuf.
      rewrite chars_append in Hsuf.
      change (list_ascii_of_string "/") with ["/"%char] in Hsuf.
      apply suffix_cons_inv in Hsuf as [Heq | Hsuf]; [|exact Hsuf].
      exfalso. change (abs_path (m :: more))
        with ("/" +:+ Str.join "/" (m :: more)) in Heq.
      rewrite chars_append in Heq. simpl in Heq.
      injection Heq as Heq. symmetry in Heq.
      assert (Hj : String.eqb (Str.join "/" (m :: more)) "" = false)
        by now apply join_clean_nonempty.
      destruct (Str.join "/" (m :: more)); discriminate. }
    rewrite Hend, abs_path_not_empty, abs_path_absolute, abs_path_split.
    change (Str.join "/" ("" :: m :: more))
      with (String "/" (Str.join "/" (m :: more))).
    rewrite split_slash.
    rewrite split_join by (auto using clean_no_slash).
    change (path.normalizeString (negb true) [] ("" :: "" :: m :: more))
      with (path.normalizeString false [] (m :: more)).
    rewrite normalizeString_clean by exact Hmore. simpl rev. rewrite app_nil_l.
    rewrite (join_clean_nonempty (m :: more) Hmore Hne). reflexivity.
  - change (abs_path (s :: segs) +:+ String "/" (Str.join "/" (m :: more)))
      with ("/" +:+ (Str.join "/" (s :: segs)
                     +:+ String "/" (Str.join "/" (m :: more)))).
    rewrite <- join_app by discriminate.
    apply normalize_abs_path; [now apply Forall_app | discriminate].
Qed.

Lemma abs_path_snoc segs x :
  segs <> [] -> abs_path (segs ++ [x]) = abs_path segs +:+ "/" +:+ x.
Proof.
  intros Hne. unfold abs_path. rewrite join_app by (assumption || discriminate).
  now rewrite append_assoc.
Qed.

Lemma prefix_append (a b : string) : String.prefix a (a +:+ b) = true.
Proof.
  induction a as [|c a IH]; [now destruct b|].
  rewrite append_cons. simpl. destruct (ascii_dec c c); [exact IH | congruence].
Qed.

Lemma inside_abs_path segs more :
  segs <> [] -> more <> [] ->
  path.inside (abs_path segs) (abs_path (segs ++ more)) = true.
Proof.
  intros Hs Hm. unfold path.inside, Str.startsWith. apply orb_true_iff. right.
  unfold abs_path. rewrite join_app by assumption.
  rewrite <- !append_assoc.
  change (String "/" (Str.join "/" more)) with ("/" +:+ Str.join "/" more).
  rewrite <- append_assoc. apply prefix_append.
Qed.

Lemma mediaDir_abs_path segs :
  Forall (fun s => clean s = true) segs ->
  mediaDir (abs_path segs) = abs_path (segs ++ ["media"]).
Proof.
  intros Hsegs. apply join_abs_path; [assumption | | discriminate].
  now repeat constructor.
Qed.

Lemma outputDir_abs_path segs streamKey :
  Forall (fun s => clean s = true) segs -> clean streamKey = true ->
  outputDir (abs_path segs) streamKey
  = abs_path (segs ++ ["media"; "live"; streamKey]).
Proof.
  intros Hsegs Hk. unfold outputDir. rewrite (mediaDir_abs_path segs Hsegs).
  rewrite join_abs_path.
  - now rewrite <- app_assoc.
  - apply Forall_app. split; [assumption | now repeat constructor].
  - now repeat constructor.
  - discriminate.
Qed.

Lemma ancestors_abs_path segs :
  Forall (fun s => clean s = true) segs ->
  ancestors (abs_path segs)
  = (fun n => abs_path (take n segs)) <$> seq 1 (length segs).
Proof.
  intros Hsegs. unfold ancestors. rewrite abs_path_split.
  assert (Hf : filter (fun s => s <> "") ("" :: Str.split "/" (Str.join "/" segs))
               = segs).
  { rewrite filter_cons_False by (intros H; now apply H).
    destruct segs as [|s segs]; [reflexivity|].
    rewrite split_join by (auto using clean_no_slash || discriminate).
    now apply clean_nonempty. }
  rewrite Hf. reflexivity.
Qed.

Lemma abs_path_in_ancestors segs :
  Forall (fun s => clean s = true) segs -> segs <> [] ->
  abs_path segs ∈ ancestors (abs_path segs).
Proof.
  intros Hsegs Hne. rewrite (ancestors_abs_path segs Hsegs).
  apply list_elem_of_fmap. exists (length segs). split.
  - now rewrite firstn_all.
  - apply list_elem_of_In, in_seq. destruct segs; [congruence|]. simpl. lia.
Qed.

(** *** Keys with parent segments *)










(** * The claims *)

(** C1, as stated, fails: a second publish while the job of the first is
    live spawns a second process, so two jobs for [demo] are live at once,
    and the table entry passes from the first handle to the second. *)
Lemma C1_second_publish_spawns_second_job :
  live_jobs "demo" one_job = [0] /\
  JsMap.get "demo" (ffmpegProcesses one_job) = Some 0 /\
  ~ length (live_jobs "demo"
              (run app_dir [PostPublish "/live/demo"; Timeout 1 []] one_job)) <= 1 /\
  JsMap.get "demo"
    (ffmpegProcesses (run app_dir [PostPublish "/live/demo"; Timeout 1 []] one_job))
  = Some 1.
Proof. vm_compute. repeat split; try reflexivity. lia. Qed.

(** C1, amended: the table lists each stream key at most once in every
    run, so at most one handle per identifier is tracked; but when a
    publish arrives while a job for [demo] is live and registered, the
    delayed start spawns one more process: the live jobs of [demo] are the
    earlier ones plus the new one, the table entry now holds the new
    handle, and the earlier process is left as it was (running, without a
    signal). *)
Theorem C1_one_tracked_handle_but_publish_spawns_again
  (__dirname : string) (fs : gset string) (evs : list event)
  (StreamPath : string) (files : list string) (p : nat) (c : ChildProcess) :
  let st := run __dirname evs (initial __dirname fs) in
  let st' := run __dirname
               [PostPublish StreamPath; Timeout (length (timers st)) files] st in
  exited st = None ->
  JsMap.get "demo" (ffmpegProcesses st) = Some p ->
  children st !! p = Some c ->
  live_for "demo" st p = true ->
  NoDup (ffmpegProcesses st).*1 /\ NoDup (ffmpegProcesses st').*1 /\
  live_jobs "demo" st' = live_jobs "demo" st ++ [length (children st)] /\
  JsMap.get "demo" (ffmpegProcesses st') = Some (length (children st)) /\
  children st' !! p = Some c /\
  live_for "demo" st' p = true.
Proof.
  intros st st' Hex Hget Hc Hlive.
  destruct (publish_then_start __dirname StreamPath files st Hex)
    as (Hch & Htab & Htim & Hex').
  fold st' in Hch, Htab, Htim, Hex'.
  assert (Hnd : forall evs', NoDup (ffmpegProcesses
                 (run __dirname evs' (initial __dirname fs))).*1).
  { intros evs'.
    apply (run_invariant __dirname (fun s => NoDup (ffmpegProcesses s).*1)).
    - intros ev s. apply step_keys.
    - simpl. constructor. }
  assert (Hp : children st' !! p = Some c).
  { rewrite Hch. now apply lookup_app_l_Some. }
  repeat split.
  - apply Hnd.
  - unfold st', st. rewrite <- run_app. apply Hnd.
  - now apply (live_jobs_snoc "demo" st st' (new_job __dirname "demo")).
  - rewrite Htab. apply get_set_eq.
  - exact Hp.
  - unfold live_for in *. now rewrite Hp, Hc in *.
Qed.

Lemma C1_one_tracked_handle_but_publish_spawns_again_witness :
  live_jobs "demo"
    (run app_dir [PostPublish "/live/demo"; Timeout 1 []] one_job) = [0; 1].
Proof.
  assert (H : exited one_job = None /\
              JsMap.get "demo" (ffmpegProcesses one_job) = Some 0 /\
              children one_job !! 0 = Some (new_job app_dir "demo") /\
              live_for "demo" one_job 0 = true)
    by (vm_compute; repeat split; reflexivity).
  destruct H as (H1 & H2 & H3 & H4).
  exact (proj1 (proj2 (proj2
    (C1_one_tracked_handle_but_publish_spawns_again app_dir ∅
       [PostPublish "/live/demo"; Timeout 0 []] "/live/demo" [] 0
       (new_job app_dir "demo") H1 H2 H3 H4)))).
Defined.

(** C2, as stated, fails: a publish that announces the stream [cam1]
    starts a job keyed by [demo] that reads and writes the paths of [demo];
    nothing is stored under [cam1]. With a second source [cam2] publishing
    too, the end of [cam1] signals the process started for [cam2]. *)
Lemma C2_publish_of_cam1_starts_the_demo_job :
  JsMap.get "cam1" (ffmpegProcesses cam1_published) = None /\
  JsMap.get "demo" (ffmpegProcesses cam1_published) = Some 0 /\
  handlerKey <$> children cam1_published !! 0 = Some "demo" /\
  last (ffmpegArgs app_dir "demo") = Some "/srv/app/media/live/demo/index.m3u8" /\
  spawnargs <$> children cam1_published !! 0 = Some (ffmpegArgs app_dir "demo") /\
  signals <$>
    children (run app_dir [PostPublish "/live/cam2"; Timeout 1 [];
                           DonePublish "/live/cam1"] cam1_published) !! 1
  = Some ["SIGTERM"].
Proof. vm_compute. repeat split; reflexivity. Qed.

(** C2, amended: for every publish event, whatever stream it announces,
    the job that gets started is keyed by the constant [demo] and has the
    input locator and output paths of [demo]; in every run every job ever
    started is such a job. *)
Theorem C2_every_publish_starts_the_demo_job
  (__dirname : string) (fs : gset string) (evs : list event)
  (StreamPath : string) (files : list string) :
  let st := run __dirname evs (initial __dirname fs) in
  let st' := run __dirname
               [PostPublish StreamPath; Timeout (length (timers st)) files] st in
  exited st = None ->
  children st' = children st ++ [new_job __dirname "demo"] /\
  JsMap.get "demo" (ffmpegProcesses st') = Some (length (children st)) /\
  Forall (demo_job __dirname) (children st').
Proof.
  intros st st' Hex.
  destruct (publish_then_start __dirname StreamPath files st Hex)
    as (Hch & Htab & _ & _).
  fold st' in Hch, Htab.
  repeat split.
  - exact Hch.
  - rewrite Htab. apply get_set_eq.
  - unfold st', st. rewrite <- run_app. apply run_demo_only.
Qed.

Lemma C2_every_publish_starts_the_demo_job_witness :
  children cam1_published = [new_job app_dir "demo"].
Proof.
  exact (proj1 (C2_every_publish_starts_the_demo_job app_dir ∅ [] "/live/cam1" []
                  eq_refl)).
Defined.

(** C3, as stated, fails: the unpublish that follows a publish at once
    finds nothing to stop and leaves the start pending; when the timer
    expires the process is spawned and registered, and it has received
    no signal. *)
Lemma C3_unpublish_does_not_cancel_the_start :
  children (run app_dir [PostPublish "/live/demo"; DonePublish "/live/demo";
                         Timeout 0 []] (initial app_dir ∅))
  = [new_job app_dir "demo"] /\
  live_jobs "demo"
    (run app_dir [PostPublish "/live/demo"; DonePublish "/live/demo";
                  Timeout 0 []] (initial app_dir ∅)) = [0] /\
  timers (run app_dir [PostPublish "/live/demo"; DonePublish "/live/demo"]
            (initial app_dir ∅)) = [start_timer "demo"].
Proof. vm_compute. repeat split; reflexivity. Qed.

(** C3, amended: a publish followed, before the job has started, by an
    unpublish leaves the start pending: the unpublish finds no handle for
    [demo] and changes neither the table, nor the processes, nor the
    timers; when the timer set by the publish expires, a process is
    spawned for [demo] and stored in the table, live. *)
Theorem C3_unpublish_before_start_leaves_the_start_pending
  (__dirname : string) (StreamPath StreamPath' : string) (files : list string)
  (st : state) :
  let st1 := run __dirname [PostPublish StreamPath; DonePublish StreamPath'] st in
  let st2 := step __dirname (Timeout (length (timers st)) files) st1 in
  exited st = None ->
  JsMap.get "demo" (ffmpegProcesses st) = None ->
  timers st1 = timers st ++ [start_timer "demo"] /\
  children st1 = children st /\
  ffmpegProcesses st1 = ffmpegProcesses st /\
  children st2 = children st ++ [new_job __dirname "demo"] /\
  JsMap.get "demo" (ffmpegProcesses st2) = Some (length (children st)) /\
  live_for "demo" st2 (length (children st)) = true.
Proof.
  intros st1 st2 Hex Hget.
  assert (Hst1 : st1 =
                 {| ffmpegProcesses := ffmpegProcesses st;
                    children := children st;
                    timers := timers st ++ [start_timer "demo"];
                    dirs := dirs st;
                    console := ((console st ++ [StreamStarted]) ++
                                [StartingTranscodingFor "demo"]) ++ [StreamEnded];
                    exited := exited st |}).
  { unfold st1, run. simpl.
    rewrite (step_live _ _ st Hex). unfold handle at 1, on_postPublish. prims. reduce.
    set (s := {| timers := timers st ++ _ |}).
    rewrite (step_live _ _ s Hex). unfold handle, on_donePublish. prims. reduce.
    set (s' := {| timers := timers st ++ _ |}).
    change (stopFFmpegTranscoding "demo" s').2
      with (exec (stopFFmpegTranscoding "demo") s').
    now rewrite stop_absent. }
  assert (Hst2 : st2 = exec (startFFmpegTranscoding __dirname "demo")
                         (take_timer (length (timers st)) st1).2).
  { unfold st2.
    apply (timeout_start __dirname _ _ "demo" (start_timer "demo")).
    - now rewrite Hst1.
    - rewrite Hst1. simpl. now apply list_lookup_middle.
    - reflexivity. }
  assert (Hch : children st2 = children st ++ [new_job __dirname "demo"]).
  { rewrite Hst2, start_children, Hst1. reflexivity. }
  repeat split.
  - now rewrite Hst1.
  - now rewrite Hst1.
  - now rewrite Hst1.
  - exact Hch.
  - rewrite Hst2, start_table, Hst1. simpl. apply get_set_eq.
  - unfold live_for. rewrite Hch, list_lookup_middle by reflexivity. reflexivity.
Qed.

Lemma C3_unpublish_before_start_leaves_the_start_pending_witness :
  live_for "demo"
    (step app_dir (Timeout 0 [])
       (run app_dir [PostPublish "/live/demo"; DonePublish "/live/demo"]
          (initial app_dir ∅))) 0 = true.
Proof.
  exact (proj2 (proj2 (proj2 (proj2 (proj2
    (C3_unpublish_before_start_leaves_the_start_pending app_dir
       "/live/demo" "/live/demo" [] (initial app_dir ∅) eq_refl eq_refl)))))).
Defined.

(** C4, as stated, fails: on the interrupt the job of [demo] is sent
    [SIGTERM] and the service exits with code 0 right away; the exit of
    the job has not been observed then, and its [close] is not handled
    afterwards. *)
Lemma C4_service_exits_before_the_job_is_closed :
  exited (step app_dir SIGINT one_job) = Some 0%Z /\
  signals <$> children (step app_dir SIGINT one_job) !! 0 = Some ["SIGTERM"] /\
  closed <$> children (step app_dir SIGINT one_job) !! 0 = Some None /\
  closed <$>
    children (step app_dir (ChildClose 0 (Some 0%Z))
                (step app_dir SIGINT one_job)) !! 0 = Some None.
Proof. vm_compute. repeat split; reflexivity. Qed.

(** C4, amended: on the interrupt the service exits at once with code
    0, whatever the table holds, without waiting: every process of the
    table that has not ended has been sent [SIGTERM], the processes differ
    from before only by the signals received, none has been closed, and no
    later event is handled. *)
Theorem C4_interrupt_signals_every_job_and_exits_at_once
  (__dirname : string) (st : state) (ev : event) :
  let st' := step __dirname SIGINT st in
  exited st = None ->
  exited st' = Some 0%Z /\
  (forall k p c,
      JsMap.get k (ffmpegProcesses st) = Some p ->
      children st !! p = Some c ->
      running c = true ->
      exists c', children st' !! p = Some c' /\ "SIGTERM" ∈ signals c' /\
                 closed c' = None) /\
  Forall2 signalled (children st) (children st') /\
  step __dirname ev st' = st'.
Proof.
  intros st' Hex. unfold st'. rewrite (step_live _ _ _ Hex).
  change (handle __dirname SIGINT) with on_SIGINT.
  destruct (sigint_frame st) as (_ & _ & _ & Hex' & Hsig).
  repeat split.
  - exact Hex'.
  - intros k p c Hget Hc Hr. eapply sigint_sends; eassumption.
  - exact Hsig.
  - apply step_exited_state. now rewrite Hex'.
Qed.

Lemma C4_interrupt_signals_every_job_and_exits_at_once_witness :
  exited (step app_dir SIGINT (initial app_dir ∅)) = Some 0%Z /\
  exists c', children (step app_dir SIGINT one_job) !! 0 = Some c' /\
             "SIGTERM" ∈ signals c' /\ closed c' = None.
Proof.
  split.
  - exact (proj1 (C4_interrupt_signals_every_job_and_exits_at_once app_dir
                    (initial app_dir ∅) PreConnect eq_refl)).
  - exact (proj1 (proj2 (C4_interrupt_signals_every_job_and_exits_at_once app_dir
                           one_job PreConnect eq_refl))
             "demo" 0 (new_job app_dir "demo") eq_refl eq_refl eq_refl).
Defined.




(** C6: when the process of an active stream (its handle is the one
    stored for its key, its [close] not yet delivered) exits with a code
    other than 0, a signal death included, the handler removes the entry
    of the key from the table and starts nothing: the processes are the
    same ones, with this one marked closed, no timer is added, and as long
    as no publish arrives and no start was pending, no process is ever
    spawned afterwards. *)
Theorem C6_abnormal_exit_clears_the_entry_without_restart
  (__dirname : string) (st : state) (p : nat) (c : ChildProcess)
  (code : option Z) (evs : list event) :
  let st' := step __dirname (ChildClose p code) st in
  exited st = None ->
  children st !! p = Some c ->
  closed c = None ->
  JsMap.get (handlerKey c) (ffmpegProcesses st) = Some p ->
  code <> Some 0%Z ->
  no_pending_start st ->
  Forall (fun ev => is_publish ev = false) evs ->
  JsMap.get (handlerKey c) (ffmpegProcesses st') = None /\
  children st' = alter (mark_closed code) p (children st) /\
  timers st' = timers st /\
  live_for (handlerKey c) st' p = false /\
  length (children (run __dirname evs st')) = length (children st).
Proof.
  intros st' Hex Hc Hcl Hget Hcode Hq Hevs.
  assert (Hst' : st' = _) by (apply close_spec; eassumption).
  assert (Hch : children st' = alter (mark_closed code) p (children st))
    by now rewrite Hst'.
  assert (Htim : timers st' = timers st) by now rewrite Hst'.
  repeat split.
  - rewrite Hst'. simpl. apply get_delete_eq.
  - exact Hch.
  - exact Htim.
  - unfold live_for. rewrite Hch, list_lookup_alter_eq, Hc. simpl.
    apply andb_false_r.
  - rewrite run_quiet; [| exact Hevs | unfold no_pending_start; now rewrite Htim].
    now rewrite Hch, length_alter.
Qed.

Lemma C6_abnormal_exit_clears_the_entry_without_restart_witness :
  JsMap.get "demo"
    (ffmpegProcesses (step app_dir (ChildClose 0 (Some 137%Z))
                        (run app_dir [Timeout 0 ["index.m3u8"]] one_job))) = None.
Proof.
  assert (Hq : no_pending_start (run app_dir [Timeout 0 ["index.m3u8"]] one_job))
    by (vm_compute; constructor).
  assert (Hevs : Forall (fun ev => is_publish ev = false)
                   [DonePublish "/live/demo"; PreConnect])
    by (repeat constructor).
  assert (Hcode : Some 137%Z <> Some 0%Z) by discriminate.
  exact (proj1 (C6_abnormal_exit_clears_the_entry_without_restart app_dir
                  (run app_dir [Timeout 0 ["index.m3u8"]] one_job) 0
                  (new_job app_dir "demo") (Some 137%Z)
                  [DonePublish "/live/demo"; PreConnect]
                  eq_refl eq_refl eq_refl eq_refl Hcode Hq Hevs)).
Defined.

(** C7, as stated, fails in its second half: after the stop the process
    has received [SIGTERM] only and has not been closed, the one timer
    still pending is the check of the output files, and once that has
    expired nothing is pending at all, the process still unclosed with
    [SIGTERM] as its only signal: nothing is left that could escalate. *)
Lemma C7_stop_never_escalates :
  signals <$> children stopped_job !! 0 = Some ["SIGTERM"] /\
  closed <$> children stopped_job !! 0 = Some None /\
  timers stopped_job = [check_timer app_dir "demo"] /\
  timers (run app_dir [Timeout 0 []] stopped_job) = [] /\
  signals <$> children (run app_dir [Timeout 0 []] stopped_job) !! 0
  = Some ["SIGTERM"] /\
  closed <$> children (run app_dir [Timeout 0 []] stopped_job) !! 0 = Some None.
Proof. vm_compute. repeat split; reflexivity. Qed.

(** C7, amended: stopping a job sends [SIGTERM] to the process stored
    for the key, once, and removes the entry; it sets no timer, and there
    is no escalation: in every run, every signal any process has been sent
    is [SIGTERM]. *)
Theorem C7_stop_sends_SIGTERM_only
  (__dirname : string) (st : state) (k : string) (p : nat) (c : ChildProcess)
  (fs : gset string) (evs : list event) :
  let st' := exec (stopFFmpegTranscoding k) st in
  JsMap.get k (ffmpegProcesses st) = Some p ->
  children st !! p = Some c ->
  running c = true ->
  children st' = <[p := send_signal "SIGTERM" c]> (children st) /\
  timers st' = timers st /\
  JsMap.get k (ffmpegProcesses st') = None /\
  Forall sigterm_only (children (run __dirname evs (initial __dirname fs))).
Proof.
  intros st' Hget Hc Hr.
  destruct (stop_frame k st) as (Htab & Htim & _).
  repeat split.
  - now apply stop_signals.
  - exact Htim.
  - unfold st'. rewrite Htab. apply get_delete_eq.
  - apply (run_invariant __dirname (fun s => Forall sigterm_only (children s))).
    + intros ev s. apply step_sigterm_only.
    + constructor.
Qed.

Lemma C7_stop_sends_SIGTERM_only_witness :
  children (exec (stopFFmpegTranscoding "demo") one_job)
  = <[0 := send_signal "SIGTERM" (new_job app_dir "demo")]> (children one_job).
Proof.
  exact (proj1 (C7_stop_sends_SIGTERM_only app_dir one_job "demo" 0
                  (new_job app_dir "demo") ∅ [] eq_refl eq_refl eq_refl)).
Defined.



(** C9: on every response for a file of the output tree the hook sets
    [Cache-Control] to [no-cache, no-store, must-revalidate] and allows
    every origin; for a file whose name ends in [.m3u8] it sets the
    playlist media type, for one whose name ends in [.ts] the segment
    media type. *)
Theorem C9_headers_of_the_output_tree
  (res : gmap string string) (filePath : string) :
  let res' := setHeaders res filePath in
  res' !! "Cache-Control" = Some "no-cache, no-store, must-revalidate" /\
  res' !! "Access-Control-Allow-Origin" = Some "*" /\
  (Str.endsWith filePath ".m3u8" = true ->
   res' !! "Content-Type" = Some "application/vnd.apple.mpegurl") /\
  (Str.endsWith filePath ".ts" = true ->
   res' !! "Content-Type" = Some "video/mp2t").
Proof.
  unfold setHeaders. repeat split.
  - destruct (Str.endsWith filePath ".m3u8"), (Str.endsWith filePath ".ts");
      now simplify_map_eq.
  - destruct (Str.endsWith filePath ".m3u8"), (Str.endsWith filePath ".ts");
      now simplify_map_eq.
  - intros ->. now simplify_map_eq.
  - intros Hts. rewrite (endsWith_ts_not_m3u8 _ Hts), Hts. now simplify_map_eq.
Qed.

Lemma C9_headers_of_the_output_tree_witness :
  setHeaders ∅ "/srv/app/media/live/demo/index.m3u8" !! "Content-Type"
  = Some "application/vnd.apple.mpegurl" /\
  setHeaders ∅ "/srv/app/media/live/demo/segment_004.ts" !! "Content-Type"
  = Some "video/mp2t".
Proof.
  split.
  - apply (proj1 (proj2 (proj2
      (C9_headers_of_the_output_tree ∅ "/srv/app/media/live/demo/index.m3u8")))).
    vm_compute. reflexivity.
  - apply (proj2 (proj2 (proj2
      (C9_headers_of_the_output_tree ∅ "/srv/app/media/live/demo/segment_004.ts")))).
    vm_compute. reflexivity.
Defined.

(** C10: when the stop for [streamKey] returns, the table has no entry
    for it although the process has only been signalled, its [close] not
    yet delivered. When that [close] is delivered later, its handler
    deletes the entry then stored under the key of the process, also when
    that entry is the handle [newer] of another process started for the
    same key in the meantime, which is left as it is, no longer tracked. *)
Theorem C10_late_close_deletes_the_newer_handle
  (__dirname : string) (streamKey : string) (st : state)
  (ffmpeg : nat) (c : ChildProcess)
  (later : state) (c1 : ChildProcess) (newer : nat) (code : option Z) :
  let stopped := exec (stopFFmpegTranscoding streamKey) st in
  let closed_late := step __dirname (ChildClose ffmpeg code) later in
  JsMap.get streamKey (ffmpegProcesses st) = Some ffmpeg ->
  children st !! ffmpeg = Some c ->
  closed c = None ->
  exited later = None ->
  children later !! ffmpeg = Some c1 ->
  closed c1 = None ->
  JsMap.get (handlerKey c1) (ffmpegProcesses later) = Some newer ->
  newer <> ffmpeg ->
  JsMap.get streamKey (ffmpegProcesses stopped) = None /\
  children stopped !! ffmpeg = Some (send_signal "SIGTERM" c) /\
  closed (send_signal "SIGTERM" c) = None /\
  JsMap.get (handlerKey c1) (ffmpegProcesses closed_late) = None /\
  children closed_late !! newer = children later !! newer.
Proof.
  intros stopped closed_late Hget Hc Hcl Hex Hc1 Hcl1 Hnewer Hne.
  destruct (stop_frame streamKey st) as (Htab & _).
  assert (Hr : running c = true) by (unfold running; now rewrite Hcl).
  assert (Hlate : closed_late = _) by (apply close_spec; eassumption).
  repeat split.
  - unfold stopped. rewrite Htab. apply get_delete_eq.
  - unfold stopped. rewrite (stop_signals streamKey ffmpeg c st Hget Hc Hr).
    apply list_lookup_insert_eq. eapply lookup_lt_Some, Hc.
  - exact Hcl.
  - rewrite Hlate. simpl. apply get_delete_eq.
  - rewrite Hlate. simpl. now apply list_lookup_alter_ne.
Qed.

Lemma C10_late_close_deletes_the_newer_handle_witness :
  JsMap.get "demo"
    (ffmpegProcesses (step app_dir (ChildClose 0 None) restarted_job)) = None /\
  live_for "demo" (step app_dir (ChildClose 0 None) restarted_job) 1 = true.
Proof.
  assert (Hne : 1 <> 0) by discriminate.
  split.
  - exact (proj1 (proj2 (proj2 (proj2
      (C10_late_close_deletes_the_newer_handle app_dir "demo" one_job 0
         (new_job app_dir "demo") restarted_job
         (send_signal "SIGTERM" (new_job app_dir "demo")) 1 None
         eq_refl eq_refl eq_refl eq_refl eq_refl eq_refl eq_refl Hne))))).
  - vm_compute. reflexivity.
Defined.


(** * Further properties of the code *)

(** X1: with the server installed in a directory of clean segments, a
    stream key that is one clean segment (not empty, not [.] or [..],
    without a separator) gets the output directory
    [<install>/media/live/<key>], which lies below the media
    directory. *)
Theorem outputDir_of_clean_key_is_below_media
  (segs : list string) (streamKey : string) :
  Forall (fun s => clean s = true) segs ->
  clean streamKey = true ->
  outputDir (abs_path segs) streamKey
  = mediaDir (abs_path segs) +:+ "/live/" +:+ streamKey /\
  path.inside (mediaDir (abs_path segs)) (outputDir (abs_path segs) streamKey)
  = true.
Proof.
  intros Hsegs Hk.
  rewrite (outputDir_abs_path segs streamKey Hsegs Hk),
          (mediaDir_abs_path segs Hsegs).
  split.
  - change (segs ++ ["media"; "live"; streamKey])
      with (segs ++ ["media"] ++ ["live"; streamKey]).
    rewrite app_assoc. unfold abs_path.
    rewrite (join_app (segs ++ ["media"])) by (now destruct segs || discriminate).
    rewrite !append_assoc. reflexivity.
  - change (segs ++ ["media"; "live"; streamKey])
      with (segs ++ ["media"] ++ ["live"; streamKey]).
    rewrite app_assoc. apply inside_abs_path; [now destruct segs | discriminate].
Qed.

Lemma outputDir_of_clean_key_is_below_media_witness :
  outputDir "/srv/app" "cam1" = "/srv/app/media/live/cam1".
Proof.
  assert (Hsegs : Forall (fun s => clean s = true) ["srv"; "app"])
    by (repeat constructor).
  exact (proj1 (outputDir_of_clean_key_is_below_media ["srv"; "app"] "cam1"
                  Hsegs eq_refl)).
Defined.

Lemma endsWith_append (a suffix : string) :
  Str.endsWith (a +:+ suffix) suffix = true.
Proof.
  unfold Str.endsWith. apply bool_decide_eq_true.
  rewrite chars_append. now apply suffix_app_r.
Qed.

(** X2: for a clean installation directory and a clean stream key, the
    job is told to read [rtmp://localhost:1935/live/<key>] and to write
    its segments and its playlist directly into the output directory of
    the key; the playlist path is [<staticRoot>/<key>/index.m3u8], below
    the directory handed to [express.static], and the header hook gives
    that path the playlist media type. *)
Theorem playlist_path_is_below_the_static_root
  (segs : list string) (streamKey : string) (res : gmap string string) :
  Forall (fun s => clean s = true) segs ->
  clean streamKey = true ->
  let dir := outputDir (abs_path segs) streamKey in
  ffmpegArgs (abs_path segs) streamKey !! 1
  = Some ("rtmp://localhost:1935/live/" +:+ streamKey) /\
  ffmpegArgs (abs_path segs) streamKey !! 27
  = Some (dir +:+ "/segment_%03d.ts") /\
  last (ffmpegArgs (abs_path segs) streamKey) = Some (dir +:+ "/index.m3u8") /\
  dir +:+ "/index.m3u8"
  = staticRoot (abs_path segs) +:+ "/" +:+ streamKey +:+ "/index.m3u8" /\
  setHeaders res (dir +:+ "/index.m3u8") !! "Content-Type"
  = Some "application/vnd.apple.mpegurl".
Proof.
  intros Hsegs Hk dir.
  assert (Hdir : dir = abs_path (segs ++ ["media"; "live"; streamKey]))
    by now apply outputDir_abs_path.
  assert (Hall : Forall (fun s => clean s = true)
                   (segs ++ ["media"; "live"; streamKey])).
  { apply Forall_app. split; [assumption | now repeat constructor]. }
  assert (Hfile : forall name, clean name = true ->
                    path.join [dir; name] = dir +:+ "/" +:+ name).
  { intros name Hname. rewrite Hdir, join_abs_path.
    - apply abs_path_snoc. now destruct segs.
    - exact Hall.
    - now repeat constructor.
    - discriminate. }
  assert (Hroot : staticRoot (abs_path segs) = abs_path (segs ++ ["media"; "live"])).
  { unfold staticRoot. rewrite (mediaDir_abs_path segs Hsegs), join_abs_path.
    - now rewrite <- app_assoc.
    - apply Forall_app. split; [assumption | now repeat constructor].
    - now repeat constructor.
    - discriminate. }
  repeat split.
  - unfold ffmpegArgs. simpl. fold dir.
    now rewrite (Hfile "segment_%03d.ts" eq_refl).
  - unfold ffmpegArgs. simpl. fold dir.
    now rewrite (Hfile "index.m3u8" eq_refl).
  - rewrite Hroot, Hdir.
    change (segs ++ ["media"; "live"; streamKey])
      with (segs ++ ["media"; "live"] ++ [streamKey]).
    rewrite app_assoc, abs_path_snoc by now destruct segs.
    now rewrite !append_assoc.
  - unfold setHeaders.
    change "/index.m3u8" with ("/index" +:+ ".m3u8").
    rewrite <- append_assoc, endsWith_append. now simplify_map_eq.
Qed.

Lemma playlist_path_is_below_the_static_root_witness :
  last (ffmpegArgs "/srv/app" "cam1") = Some ("/srv/app/media/live/cam1/index.m3u8").
Proof.
  assert (Hsegs : Forall (fun s => clean s = true) ["srv"; "app"])
    by (repeat constructor).
  exact (proj1 (proj2 (proj2
    (playlist_path_is_below_the_static_root ["srv"; "app"] "cam1" ∅
       Hsegs eq_refl)))).
Defined.

(** X3: when the output directory of the key exists already,
    [startFFmpegTranscoding] does not touch the file system and logs no
    created directory: the directories are the ones there were, and before
    the spawn the console gets the announcement, the key and the command
    line, nothing else. *)
Theorem start_on_an_existing_directory_leaves_the_file_system
  (__dirname streamKey : string) (st : state) :
  outputDir __dirname streamKey ∈ dirs st ->
  let st' := exec (startFFmpegTranscoding __dirname streamKey) st in
  dirs st' = dirs st /\
  console st'
  = console st ++ [StartingManualTranscoding; StreamKeyIs streamKey;
                   FFmpegCommand (ffmpegArgs __dirname streamKey)].
Proof.
  intros Hdir st'. unfold st', startFFmpegTranscoding. prims. reduce.
  rewrite bool_decide_eq_true_2 by exact Hdir. reduce.
  split; [reflexivity|]. now rewrite <- !app_assoc.
Qed.

Lemma start_on_an_existing_directory_leaves_the_file_system_witness :
  dirs (exec (startFFmpegTranscoding app_dir "demo") one_job) = dirs one_job.
Proof.
  assert (Hdir : outputDir app_dir "demo" ∈ dirs one_job).
  { refine (bool_decide_eq_true_1 (outputDir app_dir "demo" ∈ dirs one_job) _).
    vm_compute. reflexivity. }
  exact (proj1 (start_on_an_existing_directory_leaves_the_file_system
                  app_dir "demo" one_job Hdir)).
Defined.

(** ** How the handlers compose *)

Lemma donePublish_spec __dirname StreamPath st :
  exited st = None ->
  step __dirname (DonePublish StreamPath) st
  = exec (stopFFmpegTranscoding "demo") (exec (console_log StreamEnded) st).
Proof. intros Hex. now rewrite (step_live _ _ _ Hex). Qed.

Lemma insert_last {A} (l : list A) (x y : A) :
  <[length l := y]> (l ++ [x]) = l ++ [y].
Proof.
  induction l as [|z l IH]; simpl; [reflexivity | now rewrite IH].
Qed.

Lemma delete_twice {V} (k : string) (m : JsMap.t V) :
  JsMap.delete k (JsMap.delete k m) = JsMap.delete k m.
Proof.
  induction m as [|[k' v] m IH]; simpl; [reflexivity|].
  destruct (String.eqb k' k) eqn:E; [exact IH|].
  simpl. rewrite E. now rewrite IH.
Qed.

(** X4: stopping is idempotent: after a stop for a key, a second stop for
    the same key finds no entry and does nothing at all: no signal, no
    console line. *)
Theorem stop_twice_is_stop_once (streamKey : string) (st : state) :
  exec (stopFFmpegTranscoding streamKey)
    (exec (stopFFmpegTranscoding streamKey) st)
  = exec (stopFFmpegTranscoding streamKey) st.
Proof.
  apply stop_absent.
  destruct (stop_frame streamKey st) as (Htab & _).
  rewrite Htab. apply get_delete_eq.
Qed.

(** X5: an unpublish while nothing is stored for [demo] only writes its
    console line: the table, the processes (no signal is sent), the
    timers and the directories stay as they are. *)
Theorem unpublish_without_a_job_is_ignored
  (__dirname StreamPath : string) (st : state) :
  exited st = None ->
  JsMap.get "demo" (ffmpegProcesses st) = None ->
  step __dirname (DonePublish StreamPath) st
  = {| ffmpegProcesses := ffmpegProcesses st; children := children st;
       timers := timers st; dirs := dirs st;
       console := console st ++ [StreamEnded]; exited := exited st |}.
Proof.
  intros Hex Hget. rewrite (donePublish_spec _ _ _ Hex).
  now apply stop_absent.
Qed.

Lemma unpublish_without_a_job_is_ignored_witness :
  children (step app_dir (DonePublish "/live/demo") (initial app_dir ∅)) = [].
Proof.
  exact (f_equal children
           (unpublish_without_a_job_is_ignored app_dir "/live/demo"
              (initial app_dir ∅) eq_refl eq_refl)).
Defined.

(** X6: a start for [demo] followed at once by a stop for [demo]: the
    processes there were are untouched and one process is added, the one
    just spawned, which the stop has signalled at most once, with
    [SIGTERM]; [demo] has no entry, the entries of the other keys are the
    ones from before, and the check of the files stays scheduled. *)
Theorem start_then_stop
  (__dirname other : string) (st : state) :
  other <> "demo" ->
  let st' := exec (stopFFmpegTranscoding "demo")
               (exec (startFFmpegTranscoding __dirname "demo") st) in
  (exists c', children st' = children st ++ [c'] /\
              signalled (new_job __dirname "demo") c' /\
              length (signals c') <= 1) /\
  JsMap.get "demo" (ffmpegProcesses st') = None /\
  JsMap.get other (ffmpegProcesses st') = JsMap.get other (ffmpegProcesses st) /\
  timers st' = timers st ++ [check_timer __dirname "demo"].
Proof.
  intros Hne st'.
  set (st1 := exec (startFFmpegTranscoding __dirname "demo") st) in *.
  assert (Hch : children st1 = children st ++ [new_job __dirname "demo"])
    by apply start_children.
  assert (Htab : ffmpegProcesses st1
                 = JsMap.set "demo" (length (children st)) (ffmpegProcesses st))
    by apply start_table.
  destruct (stop_frame "demo" st1) as (Htab' & Htim' & _).
  fold st' in Htab', Htim'.
  repeat split.
  - exists (send_signal "SIGTERM" (new_job __dirname "demo")).
    split; [|split; [apply signalled_send | simpl; lia]].
    unfold st'.
    rewrite (stop_signals "demo" (length (children st))
               (new_job __dirname "demo") st1).
    + rewrite Hch. apply insert_last.
    + rewrite Htab. apply get_set_eq.
    + rewrite Hch. now apply list_lookup_middle.
    + reflexivity.
  - rewrite Htab'. apply get_delete_eq.
  - rewrite Htab', Htab, get_delete_ne, get_set_ne by assumption. reflexivity.
  - rewrite Htim'. apply start_timers.
Qed.

Lemma start_then_stop_witness :
  JsMap.get "demo"
    (ffmpegProcesses
       (exec (stopFFmpegTranscoding "demo")
          (exec (startFFmpegTranscoding app_dir "demo") one_job))) = None.
Proof.
  assert (Hne : "cam1" <> "demo") by discriminate.
  exact (proj1 (proj2 (start_then_stop app_dir "cam1" one_job Hne))).
Defined.

(** X7: the unpublish of a stream and the exit of its job, in either
    order, end in the same table, without an entry for [demo], with the
    process closed and the timers untouched. When the exit comes first
    the unpublish finds nothing and the process is never signalled; when
    the unpublish comes first the process has been sent [SIGTERM]. *)
Theorem unpublish_and_exit_in_either_order
  (__dirname StreamPath : string) (st : state) (p : nat) (c : ChildProcess)
  (code : option Z) :
  exited st = None ->
  JsMap.get "demo" (ffmpegProcesses st) = Some p ->
  children st !! p = Some c ->
  closed c = None ->
  handlerKey c = "demo" ->
  let stop_first :=
    run __dirname [DonePublish StreamPath; ChildClose p code] st in
  let exit_first :=
    run __dirname [ChildClose p code; DonePublish StreamPath] st in
  ffmpegProcesses stop_first = ffmpegProcesses exit_first /\
  JsMap.get "demo" (ffmpegProcesses exit_first) = None /\
  children stop_first !! p = Some (mark_closed code (send_signal "SIGTERM" c)) /\
  children exit_first !! p = Some (mark_closed code c) /\
  timers stop_first = timers st /\
  timers exit_first = timers st.
Proof.
  intros Hex Hget Hc Hcl Hkey stop_first exit_first.
  assert (Hr : running c = true) by (unfold running; now rewrite Hcl).
  assert (Hlt : p < length (children st)) by (eapply lookup_lt_Some, Hc).
  (* the unpublish first *)
  set (st0 := exec (console_log StreamEnded) st).
  set (st1 := exec (stopFFmpegTranscoding "demo") st0).
  destruct (stop_frame "demo" st0) as (T1 & M1 & _ & E1 & _).
  fold st1 in T1, M1, E1.
  assert (C1 : children st1 = <[p := send_signal "SIGTERM" c]> (children st))
    by (apply (stop_signals "demo" p c st0); assumption).
  assert (Hc1 : children st1 !! p = Some (send_signal "SIGTERM" c))
    by (rewrite C1; now apply list_lookup_insert_eq).
  assert (HA : stop_first = step __dirname (ChildClose p code) st1).
  { unfold stop_first, run. simpl. now rewrite (donePublish_spec _ _ _ Hex). }
  rewrite (close_spec __dirname p code (send_signal "SIGTERM" c) st1) in HA;
    [| now rewrite E1 | exact Hc1 | exact Hcl].
  (* the exit first *)
  set (st2 := step __dirname (ChildClose p code) st).
  assert (H2 : st2 = _) by (apply close_spec; eassumption).
  assert (HB : exit_first = step __dirname (DonePublish StreamPath) st2)
    by reflexivity.
  rewrite (unpublish_without_a_job_is_ignored __dirname StreamPath st2) in HB;
    [| now rewrite H2 | rewrite H2, Hkey; apply get_delete_eq].
  rewrite HA, HB, H2. simpl. rewrite Hkey, T1.
  repeat split.
  - apply (delete_twice "demo" (ffmpegProcesses st)).
  - apply get_delete_eq.
  - now rewrite list_lookup_alter_eq, Hc1.
  - now rewrite list_lookup_alter_eq, Hc.
  - exact M1.
Qed.

Lemma unpublish_and_exit_in_either_order_witness :
  JsMap.get "demo"
    (ffmpegProcesses
       (run app_dir [ChildClose 0 (Some 0%Z); DonePublish "/live/demo"] one_job))
  = None.
Proof.
  exact (proj1 (proj2
    (unpublish_and_exit_in_either_order app_dir "/live/demo" one_job 0
       (new_job app_dir "demo") (Some 0%Z)
       eq_refl eq_refl eq_refl eq_refl eq_refl))).
Defined.

(** ** The interrupt and the processes outside the table *)

Lemma kill_other ffmpeg sig st p :
  p <> ffmpeg -> children (kill ffmpeg sig st).2 !! p = children st !! p.
Proof.
  intros Hne. unfold kill.
  destruct (children st !! ffmpeg) as [c|]; [|reflexivity].
  destruct (running c); [|reflexivity].
  simpl. now apply list_lookup_insert_ne.
Qed.

Lemma stop_each_untracked entries st p :
  p ∉ entries.*2 ->
  children (stop_each entries st).2 !! p = children st !! p.
Proof.
  revert st. induction entries as [|[k q] entries IH]; intros st Hp; [reflexivity|].
  simpl in Hp. apply not_elem_of_cons in Hp as [Hne Hp].
  simpl. prims.
  set (st0 := {| console := console st ++ [Stopping k] |}).
  pose proof (kill_other q "SIGTERM" st0 p Hne) as Hk.
  destruct (kill q "SIGTERM" st0) as [b st1]. simpl in Hk.
  now rewrite (IH st1 Hp).
Qed.

(** X8: the interrupt handler signals only the processes the table
    lists: a process whose handle is not in the table, live or not, is
    left exactly as it was. *)
Theorem interrupt_leaves_untracked_processes_alone
  (__dirname : string) (st : state) (p : nat) :
  exited st = None ->
  p ∉ (JsMap.entries (ffmpegProcesses st)).*2 ->
  children (step __dirname SIGINT st) !! p = children st !! p.
Proof.
  intros Hex Hp. rewrite (step_live _ _ _ Hex).
  change (handle __dirname SIGINT) with on_SIGINT.
  unfold on_SIGINT. prims. reduce.
  set (st0 := {| console := console st ++ [ShuttingDown] |}).
  pose proof (stop_each_untracked (JsMap.entries (ffmpegProcesses st)) st0 p Hp)
    as Hs.
  destruct (stop_each _ st0) as [u st1]. exact Hs.
Qed.

Lemma interrupt_leaves_untracked_processes_alone_witness :
  children (step app_dir SIGINT two_jobs) !! 0 = Some (new_job app_dir "demo") /\
  live_for "demo" (step app_dir SIGINT two_jobs) 0 = true.
Proof.
  assert (Hp : 0 ∉ (JsMap.entries (ffmpegProcesses two_jobs)).*2).
  { intros H. vm_compute in H. inversion H as [|? ? ? H']. inversion H'. }
  split.
  - exact (interrupt_leaves_untracked_processes_alone app_dir two_jobs 0
             eq_refl Hp).
  - vm_compute. reflexivity.
Defined.

(** ** Invariants of every run *)

Lemma well_run_frame __dirname st st' :
  ffmpegProcesses st' = ffmpegProcesses st ->
  children st' = children st ->
  exited st' = exited st ->
  Forall (demo_timer __dirname) (timers st') ->
  well_run __dirname st -> well_run __dirname st'.
Proof.
  intros Ht Hc He Htim (Hjobs & _ & Htr & Hsig).
  unfold well_run, tracked_ok. rewrite Ht, Hc, He. auto.
Qed.

Lemma send_signal_demo_job __dirname sig c :
  demo_job __dirname c -> demo_job __dirname (send_signal sig c).
Proof. intros (? & ? & ?). repeat split; assumption. Qed.

Lemma mark_closed_demo_job __dirname code c :
  demo_job __dirname c -> demo_job __dirname (mark_closed code c).
Proof. intros (? & ? & ?). repeat split; assumption. Qed.

Lemma well_run_initial __dirname fs : well_run __dirname (initial __dirname fs).
Proof.
  split; [constructor|]. split; [constructor|]. split; [now left | constructor].
Qed.

Lemma step_well_run __dirname ev st :
  well_run __dirname st -> well_run __dirname (step __dirname ev st).
Proof.
  intros Hinv. destruct (exited st) as [z|] eqn:Hex.
  { rewrite step_exited_state; [exact Hinv | congruence]. }
  pose proof Hinv as (Hjobs & Htim & Htr & Hsig).
  destruct ev.
  1-3, 6-7: (rewrite (step_live _ _ _ Hex);
             apply (well_run_frame __dirname st); try reflexivity; assumption).
  - (* postPublish *)
    rewrite (step_live _ _ _ Hex). unfold handle, on_postPublish. prims. reduce.
    unfold well_run, tracked_ok. reduce. repeat split; try assumption.
    apply Forall_app. split; [assumption|]. apply Forall_singleton. now left.
  - (* donePublish *)
    rewrite (donePublish_spec _ _ _ Hex).
    set (st0 := exec (console_log StreamEnded) st).
    destruct Htr as [Hempty | (p & c & Htab & Hc & Hcl & Hnosig)].
    + rewrite stop_absent by (simpl; now rewrite Hempty).
      apply (well_run_frame __dirname st); try reflexivity; assumption.
    + assert (Hr : running c = true) by (unfold running; now rewrite Hcl).
      destruct (stop_frame "demo" st0) as (T1 & M1 & _ & E1 & _).
      pose proof (stop_signals "demo" p c st0) as C1.
      simpl in C1. rewrite Htab in C1. specialize (C1 eq_refl Hc Hr).
      simpl in T1. rewrite Htab in T1. simpl in T1.
      unfold well_run, tracked_ok. rewrite T1, M1, C1. repeat split.
      * apply Forall_insert; [assumption|].
        apply send_signal_demo_job. eapply Forall_lookup_1; eassumption.
      * assumption.
      * now left.
      * apply Forall_insert; [assumption|].
        simpl. rewrite (Hnosig Hex). simpl. lia.
  - (* a timer expires *)
    destruct (timers st !! n) as [t|] eqn:Ht.
    + pose proof (Forall_lookup_1 _ _ _ _ Htim Ht) as [-> | ->].
      * rewrite (timeout_start __dirname n files "demo" _ st Hex Ht eq_refl).
        set (st0 := (take_timer n st).2).
        unfold well_run, tracked_ok.
        rewrite start_children, start_timers, start_table, start_exited.
        subst st0. simpl. repeat split.
        -- apply Forall_app. split; [assumption|].
           apply Forall_singleton. repeat split.
        -- apply Forall_app. split; [now apply Forall_delete|].
           apply Forall_singleton. now right.
        -- right. exists (length (children st)), (new_job __dirname "demo").
           split; [|split; [now apply list_lookup_middle | now split]].
           destruct Htr as [-> | (p & c & -> & _)]; reflexivity.
        -- apply Forall_app. split; [assumption|].
           apply Forall_singleton. simpl. lia.
      * rewrite (step_live _ _ _ Hex). unfold handle. prims. reduce.
        rewrite Ht. reduce. unfold checkFiles. prims.
        branch;
          (apply (well_run_frame __dirname st); try reflexivity;
           [now apply Forall_delete | assumption]).
    + rewrite (step_live _ _ _ Hex). unfold handle. prims. reduce.
      rewrite Ht. reduce.
      apply (well_run_frame __dirname st); try reflexivity;
        [now apply Forall_delete | assumption].
  - (* error *)
    rewrite (step_live _ _ _ Hex). unfold handle. prims. reduce.
    destruct (children st !! ffmpeg); reduce;
      (apply (well_run_frame __dirname st); try reflexivity; assumption).
  - (* close *)
    destruct (children st !! ffmpeg) as [c|] eqn:Hc.
    + destruct (closed c) as [code'|] eqn:Hcl.
      * rewrite (step_live _ _ _ Hex). unfold handle. prims. reduce.
        rewrite Hc. reduce. unfold running. rewrite Hcl.
        apply (well_run_frame __dirname st); try reflexivity; assumption.
      * rewrite (close_spec __dirname ffmpeg code c st Hex Hc Hcl).
        destruct (Forall_lookup_1 _ _ _ _ Hjobs Hc) as (_ & _ & Hkey).
        unfold well_run, tracked_ok. reduce. rewrite Hkey. repeat split.
        -- apply Forall_alter; [assumption|].
           intros c' _. apply mark_closed_demo_job.
        -- assumption.
        -- left. destruct Htr as [-> | (p & c' & -> & _)]; reflexivity.
        -- apply Forall_alter; [assumption|]. intros c' _. exact id.
    + rewrite (step_live _ _ _ Hex). unfold handle. prims. reduce.
      rewrite Hc. reduce.
      apply (well_run_frame __dirname st); try reflexivity; assumption.
  - (* the interrupt *)
    rewrite (step_live _ _ _ Hex).
    change (handle __dirname SIGINT) with on_SIGINT.
    unfold on_SIGINT. prims. reduce.
    destruct Htr as [Hempty | (p & c & Htab & Hc & Hcl & Hnosig)].
    + rewrite Hempty. reduce.
      unfold well_run, tracked_ok. reduce.
      split; [assumption|]. split; [assumption|]. split; [|assumption].
      left. reflexivity.
    + rewrite Htab. reduce. prims. unfold kill. reduce. rewrite Hc.
      unfold running. rewrite Hcl. reduce.
      unfold well_run, tracked_ok. reduce. repeat split.
      * apply Forall_insert; [assumption|].
        apply send_signal_demo_job. eapply Forall_lookup_1; eassumption.
      * assumption.
      * right. exists p, (send_signal "SIGTERM" c).
        split; [reflexivity|]. split; [|split; [exact Hcl | discriminate]].
        apply list_lookup_insert_eq. eapply lookup_lt_Some, Hc.
      * apply Forall_insert; [assumption|].
        simpl. rewrite (Hnosig Hex). simpl. lia.
Qed.

Lemma run_well_run __dirname fs evs :
  well_run __dirname (run __dirname evs (initial __dirname fs)).
Proof.
  apply (run_invariant __dirname (well_run __dirname)).
  - intros ev st. apply step_well_run.
  - apply well_run_initial.
Qed.

(** X9: in every run, as long as the server has not exited, a handle
    found in the table is the only entry, stored under [demo], and it is
    the handle of a process started for [demo] that has not been closed
    and has not been sent any signal. *)
Theorem tracked_handle_is_live_and_unsignalled
  (__dirname : string) (fs : gset string) (evs : list event)
  (streamKey : string) (p : nat) :
  let st := run __dirname evs (initial __dirname fs) in
  exited st = None ->
  JsMap.get streamKey (ffmpegProcesses st) = Some p ->
  ffmpegProcesses st = [("demo", p)] /\
  streamKey = "demo" /\
  live_for "demo" st p = true /\
  signals <$> children st !! p = Some [].
Proof.
  intros st Hex Hget.
  destruct (run_well_run __dirname fs evs) as (Hjobs & _ & Htr & _).
  fold st in Hjobs, Htr.
  destruct Htr as [Hempty | (q & c & Htab & Hc & Hcl & Hnosig)].
  { rewrite Hempty in Hget. discriminate. }
  rewrite Htab in Hget.
  change (JsMap.get streamKey [("demo", q)])
    with (if String.eqb "demo" streamKey then Some q else None) in Hget.
  destruct (String.eqb_spec "demo" streamKey) as [<-|]; [|discriminate].
  injection Hget as ->.
  destruct (Forall_lookup_1 _ _ _ _ Hjobs Hc) as (_ & _ & Hkey).
  repeat split.
  - exact Htab.
  - unfold live_for, running. now rewrite Hc, Hkey, Hcl.
  - rewrite Hc. simpl. now rewrite (Hnosig Hex).
Qed.

Lemma tracked_handle_is_live_and_unsignalled_witness :
  live_for "demo" one_job 0 = true.
Proof.
  exact (proj1 (proj2 (proj2
    (tracked_handle_is_live_and_unsignalled app_dir ∅
       [PostPublish "/live/demo"; Timeout 0 []] "demo" 0 eq_refl eq_refl)))).
Defined.

(** X10: in every run, no process is signalled twice: the signals a
    process has been sent are none, or one [SIGTERM]. *)
Theorem no_process_is_signalled_twice
  (__dirname : string) (fs : gset string) (evs : list event)
  (p : nat) (c : ChildProcess) :
  children (run __dirname evs (initial __dirname fs)) !! p = Some c ->
  signals c = [] \/ signals c = ["SIGTERM"].
Proof.
  intros Hc.
  destruct (run_well_run __dirname fs evs) as (_ & _ & _ & Hsig).
  pose proof (Forall_lookup_1 _ _ _ _ Hsig Hc) as Hlen.
  assert (Honly : Forall sigterm_only
                    (children (run __dirname evs (initial __dirname fs)))).
  { apply (run_invariant __dirname (fun s => Forall sigterm_only (children s))).
    - intros ev s. apply step_sigterm_only.
    - constructor. }
  pose proof (Forall_lookup_1 _ _ _ _ Honly Hc) as Hterm.
  unfold sigterm_only in Hterm. simpl in Hlen.
  destruct (signals c) as [|sig [|sig' sigs]]; simpl in Hlen.
  - now left.
  - right. apply Forall_cons in Hterm as [-> _]. reflexivity.
  - lia.
Qed.

Lemma no_process_is_signalled_twice_witness :
  signals (send_signal "SIGTERM" (new_job app_dir "demo")) = [] \/
  signals (send_signal "SIGTERM" (new_job app_dir "demo")) = ["SIGTERM"].
Proof.
  exact (no_process_is_signalled_twice app_dir ∅
           [PostPublish "/live/demo"; Timeout 0 []; DonePublish "/live/demo";
            DonePublish "/live/demo"; PostPublish "/live/demo"; Timeout 1 []]
           0 (send_signal "SIGTERM" (new_job app_dir "demo")) eq_refl).
Defined.

(** ** Jobs, timers and directories over a run *)

(** What one event does to the processes, the timers and the
    directories of a server that has not exited. *)
Lemma step_effect __dirname ev st :
  exited st = None ->
  (exists StreamPath,
      ev = PostPublish StreamPath /\
      children (step __dirname ev st) = children st /\
      timers (step __dirname ev st) = timers st ++ [start_timer "demo"] /\
      dirs (step __dirname ev st) = dirs st) \/
  (exists n files k t,
      ev = Timeout n files /\ timers st !! n = Some t /\
      callback_of t = StartTranscoding k /\
      step __dirname ev st
      = exec (startFFmpegTranscoding __dirname k) (take_timer n st).2) \/
  (is_publish ev = false /\
   length (children (step __dirname ev st)) = length (children st) /\
   dirs (step __dirname ev st) = dirs st /\
   (timers (step __dirname ev st) = timers st \/
    exists n files t,
      ev = Timeout n files /\ timers st !! n = Some t /\ is_start t = false /\
      timers (step __dirname ev st) = delete n (timers st))).
Proof.
  intros Hex. destruct ev.
  1-3, 6-7: (right; right; rewrite (step_live _ _ _ Hex); repeat split; now left).
  - left. exists StreamPath. rewrite (step_live _ _ _ Hex). repeat split.
  - right. right. rewrite (donePublish_spec _ _ _ Hex).
    destruct (stop_frame "demo" (exec (console_log StreamEnded) st))
      as (_ & M & D & _ & Hsig).
    apply Forall2_length in Hsig.
    repeat split; [now rewrite <- Hsig | exact D | left; exact M].
  - destruct (timers st !! n) as [[[k|dir k] d]|] eqn:Ht.
    + right. left.
      exists n, files, k, {| callback_of := StartTranscoding k; delay := d |}.
      repeat split; [exact Ht|].
      now apply (timeout_start __dirname n files k _ st Hex Ht).
    + right. right. rewrite (step_live _ _ _ Hex). unfold handle. prims. reduce.
      rewrite Ht. reduce. unfold checkFiles. prims.
      branch; (repeat split; right;
               exists n, files, {| callback_of := CheckFiles dir k; delay := d |};
               repeat split; exact Ht).
    + right. right. rewrite (step_live _ _ _ Hex). unfold handle. prims. reduce.
      rewrite Ht. reduce. repeat split. left.
      apply list_delete_out_of_range. now apply lookup_ge_None.
  - right. right. rewrite (step_live _ _ _ Hex). unfold handle. prims. reduce.
    destruct (children st !! ffmpeg); reduce; repeat split; now left.
  - right. right. rewrite (step_live _ _ _ Hex). unfold handle. prims. reduce.
    destruct (children st !! ffmpeg) as [c|]; reduce;
      [destruct (running c); reduce|]; try (repeat split; now left).
    unfold on_close. prims. branch; reduce; rewrite length_alter;
      repeat split; now left.
  - right. right. rewrite (step_live _ _ _ Hex).
    change (handle __dirname SIGINT) with on_SIGINT.
    destruct (sigint_frame st) as (_ & M & D & _ & Hsig).
    apply Forall2_length in Hsig.
    repeat split; [now rewrite <- Hsig | exact D | left; exact M].
Qed.

Lemma filter_delete_count {A} (f : A -> bool) (l : list A) n t :
  l !! n = Some t ->
  length (List.filter f (delete n l)) + (if f t then 1 else 0)
  = length (List.filter f l).
Proof.
  revert n. induction l as [|x l IH]; intros [|n] Hn; simpl in *; try discriminate.
  - injection Hn as ->. destruct (f t); simpl; lia.
  - specialize (IH n Hn). destruct (f x); simpl; lia.
Qed.

Lemma step_jobs __dirname ev st :
  exited st = None ->
  length (children (step __dirname ev st)) + pending_starts (step __dirname ev st)
  = length (children st) + pending_starts st + (if is_publish ev then 1 else 0).
Proof.
  intros Hex. unfold pending_starts.
  destruct (step_effect __dirname ev st Hex)
    as [(sp & -> & Hc & Ht & _)
       | [(n & files & k & t & -> & Hn & Hk & ->)
         | (Hpub & Hc & _ & [Ht | (n & files & t & -> & Hn & Hs & Ht)])]].
  - rewrite Hc, Ht, List.filter_app, length_app. simpl. lia.
  - rewrite start_children, start_timers, List.filter_app, !length_app. simpl.
    pose proof (filter_delete_count is_start (timers st) n t Hn) as Hd.
    unfold is_start at 2 in Hd. rewrite Hk in Hd. lia.
  - rewrite Hc, Ht, Hpub. lia.
  - rewrite Hc, Ht.
    pose proof (filter_delete_count is_start (timers st) n t Hn) as Hd.
    rewrite Hs in Hd. simpl. lia.
Qed.

Lemma run_exited __dirname evs st : exited st <> None -> run __dirname evs st = st.
Proof.
  intros Hex. induction evs as [|ev evs IH]; [reflexivity|].
  now rewrite run_cons, step_exited_state.
Qed.

Lemma run_jobs __dirname evs st :
  let st' := run __dirname evs st in
  length (children st') + pending_starts st'
  <= length (children st) + pending_starts st + publishes evs /\
  (exited st' = None ->
   length (children st') + pending_starts st'
   = length (children st) + pending_starts st + publishes evs).
Proof.
  cbv zeta. revert st. induction evs as [|ev evs IH]; intros st.
  - unfold publishes. simpl. lia.
  - assert (Hpub : publishes (ev :: evs)
                   = (if is_publish ev then 1 else 0) + publishes evs).
    { unfold publishes. simpl. now destruct (is_publish ev). }
    rewrite Hpub. destruct (exited st) as [z|] eqn:Hex.
    + rewrite run_exited by (rewrite Hex; discriminate).
      split; [lia | intros H; congruence].
    + rewrite run_cons.
      destruct (IH (step __dirname ev st)) as [Hle Heq].
      pose proof (step_jobs __dirname ev st Hex) as Hs.
      split; [lia | intros H; specialize (Heq H); lia].
Qed.

(** X11: jobs come from publishes only. In every run, the number of
    processes spawned so far plus the number of starts still pending is
    at most the number of publish events received, and is equal to it as
    long as the server has not exited: every publish handled leads to
    exactly one start, and nothing else starts a process. *)
Theorem every_job_comes_from_a_publish
  (__dirname : string) (fs : gset string) (evs : list event) :
  let st := run __dirname evs (initial __dirname fs) in
  length (children st) + pending_starts st <= publishes evs /\
  (exited st = None ->
   length (children st) + pending_starts st = publishes evs).
Proof.
  intros st.
  destruct (run_jobs __dirname evs (initial __dirname fs)) as [Hle Heq].
  fold st in Hle, Heq.
  assert (H0 : length (children (initial __dirname fs))
               + pending_starts (initial __dirname fs) = 0) by reflexivity.
  split; [lia | intros H; specialize (Heq H); lia].
Qed.

Lemma every_job_comes_from_a_publish_witness :
  length (children (run app_dir [PostPublish "/live/demo"; Timeout 0 [];
                                 PostPublish "/live/demo"]
                      (initial app_dir ∅)))
  + pending_starts (run app_dir [PostPublish "/live/demo"; Timeout 0 [];
                                 PostPublish "/live/demo"]
                      (initial app_dir ∅))
  = 2.
Proof.
  exact (proj2 (every_job_comes_from_a_publish app_dir ∅
                  [PostPublish "/live/demo"; Timeout 0 [];
                   PostPublish "/live/demo"]) eq_refl).
Defined.

Lemma step_dirs __dirname ev st :
  well_run __dirname st ->
  dirs st ⊆ dirs (step __dirname ev st) /\
  dirs (step __dirname ev st)
  ⊆ dirs st ∪ list_to_set (ancestors (outputDir __dirname "demo")).
Proof.
  intros (_ & Htim & _). destruct (exited st) as [z|] eqn:Hex.
  { rewrite step_exited_state by (rewrite Hex; discriminate). set_solver. }
  destruct (step_effect __dirname ev st Hex)
    as [(sp & -> & _ & _ & ->)
       | [(n & files & k & t & -> & Hn & Hk & ->) | (_ & _ & -> & _)]];
    [set_solver | | set_solver].
  destruct (Forall_lookup_1 _ _ _ _ Htim Hn) as [-> | ->]; [|discriminate].
  injection Hk as <-. rewrite start_dirs. simpl.
  case_bool_decide; set_solver.
Qed.

(** X12: the server only ever adds directories, and only on the way to
    its media directory and to the output directory of [demo]: in every
    run every directory there was at the start is still there, and every
    directory there is was there at the start or is one of these two
    directories or a directory above them. *)
Theorem directories_are_only_added_for_demo
  (__dirname : string) (fs : gset string) (evs : list event) :
  let st := run __dirname evs (initial __dirname fs) in
  fs ⊆ dirs st /\
  dirs st ⊆ fs ∪ list_to_set (ancestors (mediaDir __dirname))
               ∪ list_to_set (ancestors (outputDir __dirname "demo")).
Proof.
  apply (run_invariant __dirname
           (fun st => well_run __dirname st /\ fs ⊆ dirs st /\
              dirs st ⊆ fs ∪ list_to_set (ancestors (mediaDir __dirname))
                           ∪ list_to_set (ancestors (outputDir __dirname "demo")))).
  - intros ev st (Hinv & Hlow & Hup).
    destruct (step_dirs __dirname ev st Hinv) as [Hl Hu].
    split; [now apply step_well_run|]. split.
    + intros x Hx. apply Hl, Hlow, Hx.
    + intros x Hx. apply Hu in Hx. apply elem_of_union in Hx as [Hx|Hx].
      * apply Hup, Hx.
      * apply elem_of_union_r, Hx.
  - split; [apply well_run_initial|]. simpl. case_bool_decide; split.
    + reflexivity.
    + intros x Hx. apply elem_of_union_l, elem_of_union_l, Hx.
    + apply union_subseteq_l.
    + apply union_subseteq_l.
Qed.

Lemma directories_are_only_added_for_demo_witness :
  "/var/log" ∈ dirs (run app_dir [PostPublish "/live/demo"; Timeout 0 []]
                       (initial app_dir {["/var/log"]})).
Proof.
  apply (proj1 (directories_are_only_added_for_demo app_dir {["/var/log"]}
                  [PostPublish "/live/demo"; Timeout 0 []])).
  apply elem_of_singleton. reflexivity.
Defined.

(** ** The header hook and the file check *)

(** X14: the header hook writes three headers and no other: every
    header whose name differs, letter case ignored, from
    [Access-Control-Allow-Origin], [Cache-Control] and [Content-Type] is
    left as it was; and applying the hook twice to a response gives the
    headers that applying it once gives. *)
Theorem setHeaders_leaves_other_headers_and_is_idempotent
  (res : gmap string string) (filePath header : string) :
  toLowerCase header <> "access-control-allow-origin" ->
  toLowerCase header <> "cache-control" ->
  toLowerCase header <> "content-type" ->
  setHeaders res filePath !! header = res !! header /\
  setHeaders (setHeaders res filePath) filePath = setHeaders res filePath.
Proof.
  intros L1 L2 L3.
  assert (H1 : header <> "Access-Control-Allow-Origin")
    by (intros ->; now apply L1).
  assert (H2 : header <> "Cache-Control") by (intros ->; now apply L2).
  assert (H3 : header <> "Content-Type") by (intros ->; now apply L3).
  unfold setHeaders. split.
  - destruct (Str.endsWith filePath ".m3u8"), (Str.endsWith filePath ".ts");
      now simplify_map_eq.
  - apply map_eq. intros h.
    destruct (Str.endsWith filePath ".m3u8"), (Str.endsWith filePath ".ts");
      destruct (decide (h = "Content-Type"));
      destruct (decide (h = "Cache-Control"));
      destruct (decide (h = "Access-Control-Allow-Origin"));
      now simplify_map_eq.
Qed.

Lemma setHeaders_leaves_other_headers_and_is_idempotent_witness :
  setHeaders {["ETag" := "W/1"]} "/srv/app/media/live/demo/index.m3u8" !! "ETag"
  = ({["ETag" := "W/1"]} : gmap string string) !! "ETag".
Proof.
  assert (H1 : toLowerCase "ETag" <> "access-control-allow-origin")
    by (vm_compute; discriminate).
  assert (H2 : toLowerCase "ETag" <> "cache-control")
    by (vm_compute; discriminate).
  assert (H3 : toLowerCase "ETag" <> "content-type")
    by (vm_compute; discriminate).
  exact (proj1 (setHeaders_leaves_other_headers_and_is_idempotent
                  {["ETag" := "W/1"]} "/srv/app/media/live/demo/index.m3u8"
                  "ETag" H1 H2 H3)).
Defined.

(** X15: for a file whose name ends neither in [.m3u8] nor in [.ts] (the
    test is case-sensitive) the hook leaves the media type as the static
    server determined it, while caching is still disabled. *)
Theorem other_files_keep_their_content_type
  (res : gmap string string) (filePath : string) :
  Str.endsWith filePath ".m3u8" = false ->
  Str.endsWith filePath ".ts" = false ->
  setHeaders res filePath !! "Content-Type" = res !! "Content-Type" /\
  setHeaders res filePath !! "Cache-Control"
  = Some "no-cache, no-store, must-revalidate".
Proof.
  intros Hm Hts. unfold setHeaders. rewrite Hm, Hts. now simplify_map_eq.
Qed.

Lemma other_files_keep_their_content_type_witness :
  setHeaders {["Content-Type" := "application/octet-stream"]}
    "/srv/app/media/live/demo/INDEX.M3U8" !! "Content-Type"
  = ({["Content-Type" := "application/octet-stream"]} : gmap string string)
    !! "Content-Type".
Proof.
  exact (proj1 (other_files_keep_their_content_type
                  {["Content-Type" := "application/octet-stream"]}
                  "/srv/app/media/live/demo/INDEX.M3U8" eq_refl eq_refl)).
Defined.

Lemma hls_files_count (files : list string) :
  length (filter (fun f => Str.endsWith f ".m3u8" = true) files)
  + length (filter (fun f => Str.endsWith f ".ts" = true) files)
  <= length files.
Proof.
  induction files as [|f files IH]; [reflexivity|].
  destruct (Str.endsWith f ".ts") eqn:Hts.
  - rewrite (filter_cons_False _ f)
      by (rewrite (endsWith_ts_not_m3u8 f Hts); discriminate).
    rewrite (filter_cons_True (fun f => Str.endsWith f ".ts" = true)) by assumption.
    simpl. lia.
  - rewrite (filter_cons_False (fun f => Str.endsWith f ".ts" = true))
      by (rewrite Hts; discriminate).
    destruct (Str.endsWith f ".m3u8") eqn:Hm.
    + rewrite filter_cons_True by assumption. simpl. lia.
    + rewrite filter_cons_False by (rewrite Hm; discriminate). simpl. lia.
Qed.

(** X16: when the output directory exists, the delayed check of the
    output files changes nothing but the console. With an empty listing it
    logs that it is waiting for segments; with any other listing it
    reports the HLS files as created, whatever the entries are: the
    playlists named and the segments counted are the entries ending in
    [.m3u8] and in [.ts], together never more than the entries listed,
    and none at all when no entry has either ending. *)
Theorem checkFiles_reports_any_entry_as_created
  (outputDir streamKey : string) (files : list string) (st : state) :
  outputDir ∈ dirs st ->
  let playlists := filter (fun f => Str.endsWith f ".m3u8" = true) files in
  let segments := length (filter (fun f => Str.endsWith f ".ts" = true) files) in
  exec (checkFiles outputDir streamKey files) st
  = {| ffmpegProcesses := ffmpegProcesses st; children := children st;
       timers := timers st; dirs := dirs st;
       console := console st ++
                  [match files with
                   | [] => WaitingForSegments
                   | _ :: _ => HlsFilesCreated playlists segments streamKey
                   end];
       exited := exited st |} /\
  length playlists + segments <= length files /\
  (Forall (fun f => Str.endsWith f ".m3u8" = false /\
                    Str.endsWith f ".ts" = false) files ->
   playlists = [] /\ segments = 0).
Proof.
  intros Hdir playlists segments. repeat split.
  - unfold checkFiles. prims. reduce.
    rewrite bool_decide_eq_true_2 by exact Hdir.
    destruct files as [|f files]; [reflexivity|].
    rewrite bool_decide_eq_true_2 by (simpl; lia). reflexivity.
  - apply hls_files_count.
  - unfold playlists. clear Hdir playlists segments.
    induction H as [|f fs [Hm _] _ IH]; [reflexivity|].
    rewrite filter_cons_False by (rewrite Hm; discriminate). exact IH.
  - unfold segments. clear Hdir playlists segments.
    induction H as [|f fs [_ Hts] _ IH]; [reflexivity|].
    rewrite filter_cons_False by (rewrite Hts; discriminate). exact IH.
Qed.

Lemma checkFiles_reports_any_entry_as_created_witness :
  console (exec (checkFiles "/srv/app/media/live/demo" "demo" ["notes.txt"])
             one_job)
  = console one_job ++ [HlsFilesCreated [] 0 "demo"].
Proof.
  assert (Hdir : "/srv/app/media/live/demo" ∈ dirs one_job).
  { refine (bool_decide_eq_true_1 ("/srv/app/media/live/demo" ∈ dirs one_job) _).
    vm_compute. reflexivity. }
  exact (f_equal console
           (proj1 (checkFiles_reports_any_entry_as_created
                     "/srv/app/media/live/demo" "demo" ["notes.txt"] one_job
                     Hdir))).
Defined.
